(** * Medical-record sharing server: store, access control and persistence

    A shallow embedding of [server/storage.ts] (class [MemStorage]) and of
    the request handlers of the HTTP surface that consult it, followed by
    the properties of the access-control and record-lifecycle logic.

    Conventions of the embedding:
    - a JavaScript [Map<number, V>] is an association list in insertion
      order (module [JSMap]); [Array.from(m.values())] is the list of its
      values in that order;
    - numbers that hold ids are integers ([Z]);
    - [Date] values are the instant they denote, in milliseconds;
    - the clock, the generated hashes and the outcome of file-system calls
      are inputs of an operation, gathered in the record [Env];
    - the handlers thread the process state through a small state monad. *)

From Stdlib Require Import ZArith List String Ascii Bool Lia.
Import ListNotations.
Local Open Scope string_scope.
Local Open Scope list_scope.
Local Open Scope Z_scope.

(** ** Strings *)

(** [String.prototype.toLowerCase], on the letters A-Z.  Wallet addresses
    are ASCII ([0x] followed by hexadecimal digits); no proof below looks
    inside this definition, the concrete examples apart. *)
Definition lowerChar (c : ascii) : ascii :=
  let n := nat_of_ascii c in
  if (Nat.leb 65 n && Nat.leb n 90)%bool then ascii_of_nat (n + 32) else c.

Fixpoint toLowerCase (s : string) : string :=
  match s with
  | EmptyString => EmptyString
  | String c s' => String (lowerChar c) (toLowerCase s')
  end.

(** The comparison [a.toLowerCase() === b.toLowerCase()]. *)
Definition sameAddress (a b : string) : bool :=
  String.eqb (toLowerCase a) (toLowerCase b).

(** [Array.prototype.includes] on an array of ids. *)
Definition includes (x : Z) (l : list Z) : bool :=
  existsb (Z.eqb x) l.

(** ** JavaScript [Map] with number keys *)

Module JSMap.

Definition t (V : Type) : Type := list (Z * V).

Definition empty {V} : t V := [].

Definition keys {V} (m : t V) : list Z := map fst m.
Definition values {V} (m : t V) : list V := map snd m.
Definition entries {V} (m : t V) : list (Z * V) := m.

Fixpoint get {V} (k : Z) (m : t V) : option V :=
  match m with
  | [] => None
  | (k', v) :: m' => if k =? k' then Some v else get k m'
  end.

Definition has {V} (k : Z) (m : t V) : bool :=
  existsb (fun e => fst e =? k) m.

(** [m.set(k, v)]: an existing key keeps its position, a new key goes last. *)
Fixpoint set {V} (k : Z) (v : V) (m : t V) : t V :=
  match m with
  | [] => [(k, v)]
  | (k', v') :: m' => if k =? k' then (k, v) :: m' else (k', v') :: set k v m'
  end.

(** [m.delete(k)]: the map without [k]; the boolean it returns is [has k m]. *)
Definition delete {V} (k : Z) (m : t V) : t V :=
  filter (fun e => negb (fst e =? k)) m.

End JSMap.

(** ** Data model ([shared/schema.ts]) *)

Inductive Role := patient | doctor.

Inductive Duration := oneDay | sevenDays | thirtyDays | permanent.

Module User.
Record t := mk {
  id : Z;
  address : string;
  role : Role;
  createdAt : Z
}.
End User.

Module MedicalRecord.
Record t := mk {
  id : Z;
  title : string;
  recordType : string;
  recordDate : string;
  patientAddress : string;
  filePath : string;
  fileHash : string;
  transactionHash : string;
  createdAt : Z
}.
End MedicalRecord.

Module Access.
Record t := mk {
  id : Z;
  patientAddress : string;
  doctorAddress : string;
  recordIds : list Z;
  duration : Duration;
  createdAt : Z
}.

(** [{ ...access, recordIds: ids }] *)
Definition withRecordIds (a : t) (ids : list Z) : t :=
  mk (id a) (patientAddress a) (doctorAddress a) ids (duration a) (createdAt a).
End Access.

(** The insert types: the fields a caller supplies. *)
Record InsertUser := {
  iu_address : string;
  iu_role : Role
}.

Record InsertMedicalRecord := {
  ir_title : string;
  ir_recordType : string;
  ir_recordDate : string;
  ir_patientAddress : string;
  ir_filePath : string
}.

Record InsertAccess := {
  ia_patientAddress : string;
  ia_doctorAddress : string;
  ia_recordIds : list Z;
  ia_duration : Duration
}.

(** ** The process state *)

Record MemStorage := {
  users : JSMap.t User.t;
  medicalRecords : JSMap.t MedicalRecord.t;
  accessPermissions : JSMap.t Access.t;
  currentUserId : Z;
  currentRecordId : Z;
  currentAccessId : Z
}.

(** A JavaScript object with number-like keys, as [Object.fromEntries]
    builds it and [Object.entries] lists it: keys that are array indices
    (0 .. 2^32 - 2) come first in ascending order, the other keys follow in
    the order they were created.  The keys are the ids [saveData] wrote:
    integers small enough (below 2^53) for [Number] to read them back as
    they are; a data file given other property names by hand is not among
    the documents described here. *)
Definition JSObject (V : Type) : Type := list (Z * V).

(** The document [data.json] holds; each section may be missing. *)
Record DataDocument := {
  doc_users : option (JSObject User.t);
  doc_medicalRecords : option (JSObject MedicalRecord.t);
  doc_accessPermissions : option (JSObject Access.t)
}.

Inductive FileContent :=
| Malformed
| Parsed (d : DataDocument).

Record World := {
  storage : MemStorage;
  dataFile : option FileContent;
  files : list string
}.

(** How [fs.writeFileSync] fails when it does: the file could not be
    opened and is as it was; or the open emptied the file and the write
    stopped part-way, leaving a strict prefix of the document, which does
    not parse; or the document was written and the close failed. *)
Inductive WriteFailure :=
| BeforeOpen
| DuringWrite
| AtClose.

(** What an operation takes from its environment. *)
Record Env := {
  now : Z;
  sha256Hex : string;
  generatedTransactionHash : string;
  writeSucceeds : bool;
  writeFailure : WriteFailure;
  unlinkSucceeds : bool
}.

Definition withStorage (w : World) (s : MemStorage) : World :=
  {| storage := s; dataFile := dataFile w; files := files w |}.

Definition withDataFile (w : World) (f : option FileContent) : World :=
  {| storage := storage w; dataFile := f; files := files w |}.

Definition withFiles (w : World) (u : list string) : World :=
  {| storage := storage w; dataFile := dataFile w; files := u |}.

Definition withUsers (s : MemStorage) (m : JSMap.t User.t) (next : Z) :=
  {| users := m; medicalRecords := medicalRecords s;
     accessPermissions := accessPermissions s;
     currentUserId := next; currentRecordId := currentRecordId s;
     currentAccessId := currentAccessId s |}.

Definition withMedicalRecords (s : MemStorage) (m : JSMap.t MedicalRecord.t)
  (next : Z) :=
  {| users := users s; medicalRecords := m;
     accessPermissions := accessPermissions s;
     currentUserId := currentUserId s; currentRecordId := next;
     currentAccessId := currentAccessId s |}.

Definition withAccessPermissions (s : MemStorage) (m : JSMap.t Access.t)
  (next : Z) :=
  {| users := users s; medicalRecords := medicalRecords s;
     accessPermissions := m;
     currentUserId := currentUserId s; currentRecordId := currentRecordId s;
     currentAccessId := next |}.

(** ** State monad of the handlers *)

Definition M (A : Type) : Type := World -> A * World.

Definition ret {A} (a : A) : M A := fun w => (a, w).

Definition bind {A B} (c : M A) (k : A -> M B) : M B :=
  fun w => let (a, w') := c w in k a w'.

Declare Scope storage_scope.
Delimit Scope storage_scope with storage.
Notation "x <- c ;; k" := (bind c (fun x => k))
  (at level 61, c at next level, right associativity) : storage_scope.
Notation "c ;;; k" := (bind c (fun _ => k))
  (at level 61, right associativity) : storage_scope.
Local Open Scope storage_scope.

Definition gets {A} (f : MemStorage -> A) : M A :=
  fun w => (f (storage w), w).

Definition modifyStorage (f : MemStorage -> MemStorage) : M unit :=
  fun w => (tt, withStorage w (f (storage w))).

(** ** Persistence ([loadData], [saveData]) *)

Definition isArrayIndex (k : Z) : bool :=
  ((0 <=? k) && (k <? 4294967295))%bool.

(** A new array-index key goes after the smaller array indices. *)
Fixpoint insertIndex {V} (k : Z) (v : V) (o : JSObject V) : JSObject V :=
  match o with
  | [] => [(k, v)]
  | (k', v') :: o' =>
      if (isArrayIndex k' && (k' <? k))%bool
      then (k', v') :: insertIndex k v o'
      else (k, v) :: (k', v') :: o'
  end.

(** Assigning property [k]: an existing property keeps its place. *)
Definition defineProperty {V} (k : Z) (v : V) (o : JSObject V) : JSObject V :=
  if JSMap.has k o then JSMap.set k v o
  else if isArrayIndex k then insertIndex k v o
  else o ++ [(k, v)].

(** [Object.fromEntries(map)] *)
Definition fromEntries {V} (m : JSMap.t V) : JSObject V :=
  fold_left (fun o e => defineProperty (fst e) (snd e) o) (JSMap.entries m) [].

(** [new Map(Object.entries(o).map(([id, x]) => [Number(id), x]))] *)
Definition mapOfObject {V} (o : JSObject V) : JSMap.t V :=
  fold_left (fun m e => JSMap.set (fst e) (snd e) m) o JSMap.empty.

(** [Math.max(...Array.from(m.keys()), 0)], on ids that numbers hold
    exactly *)
Definition maxKey {V} (m : JSMap.t V) : Z :=
  fold_right Z.max 0 (JSMap.keys m).

(** The value [JSON.stringify] writes and [JSON.parse] reads back: strings,
    integers, arrays and objects of them are read back as written, and a
    date is written as the ISO text of the same instant. *)
Definition toDocument (s : MemStorage) : DataDocument :=
  {| doc_users := Some (fromEntries (users s));
     doc_medicalRecords := Some (fromEntries (medicalRecords s));
     doc_accessPermissions := Some (fromEntries (accessPermissions s)) |}.

(** What [data.json] holds once [saveData] has run on a store [s] over a
    file that held [old]; [writeFailure] counts only when the write fails. *)
Definition fileAfterWrite (e : Env) (old : option FileContent) (s : MemStorage)
  : option FileContent :=
  if writeSucceeds e then Some (Parsed (toDocument s))
  else
    match writeFailure e with
    | BeforeOpen => old
    | DuringWrite => Some Malformed
    | AtClose => Some (Parsed (toDocument s))
    end.

Definition saveData (e : Env) : M unit :=
  fun w =>
    if writeSucceeds e
    then (tt, withDataFile w (Some (Parsed (toDocument (storage w)))))
    else
      match writeFailure e with
      | BeforeOpen => (tt, w)
      | DuringWrite => (tt, withDataFile w (Some Malformed))
      | AtClose => (tt, withDataFile w (Some (Parsed (toDocument (storage w)))))
      end.

Definition loadUsers (d : DataDocument) (s : MemStorage) : MemStorage :=
  match doc_users d with
  | Some o => let m := mapOfObject o in withUsers s m (maxKey m + 1)
  | None => s
  end.

Definition loadMedicalRecords (d : DataDocument) (s : MemStorage) : MemStorage :=
  match doc_medicalRecords d with
  | Some o => let m := mapOfObject o in withMedicalRecords s m (maxKey m + 1)
  | None => s
  end.

Definition loadAccessPermissions (d : DataDocument) (s : MemStorage)
  : MemStorage :=
  match doc_accessPermissions d with
  | Some o => let m := mapOfObject o in withAccessPermissions s m (maxKey m + 1)
  | None => s
  end.

Definition loadData : M unit :=
  fun w =>
    match dataFile w with
    | Some (Parsed d) =>
        (tt, withStorage w
               (loadAccessPermissions d
                  (loadMedicalRecords d (loadUsers d (storage w)))))
    | Some Malformed => (tt, w)
    | None => (tt, w)
    end.

Definition emptyStorage : MemStorage :=
  {| users := JSMap.empty; medicalRecords := JSMap.empty;
     accessPermissions := JSMap.empty;
     currentUserId := 1; currentRecordId := 1; currentAccessId := 1 |}.

(** [new MemStorage()], run once when the process starts. *)
Definition constructor : M unit :=
  modifyStorage (fun _ => emptyStorage) ;;;
  loadData.

(** ** Store operations ([MemStorage]) *)

Definition getUser (id : Z) : M (option User.t) :=
  gets (fun s => JSMap.get id (users s)).

Definition getUserByAddress (address : string) : M (option User.t) :=
  gets (fun s =>
    find (fun user => sameAddress (User.address user) address)
         (JSMap.values (users s))).

Definition createUser (e : Env) (insertUser : InsertUser) : M User.t :=
  id <- gets currentUserId ;;
  let user := User.mk id (iu_address insertUser) (iu_role insertUser) (now e) in
  modifyStorage (fun s => withUsers s (JSMap.set id user (users s)) (id + 1)) ;;;
  saveData e ;;;
  ret user.

Definition getMedicalRecord (id : Z) : M (option MedicalRecord.t) :=
  gets (fun s => JSMap.get id (medicalRecords s)).

Definition getMedicalRecordsByPatient (patientAddress : string)
  : M (list MedicalRecord.t) :=
  gets (fun s =>
    filter (fun record =>
              sameAddress (MedicalRecord.patientAddress record) patientAddress)
           (JSMap.values (medicalRecords s))).

Definition createMedicalRecord (e : Env) (record : InsertMedicalRecord)
  : M MedicalRecord.t :=
  id <- gets currentRecordId ;;
  let medicalRecord :=
    MedicalRecord.mk id (ir_title record) (ir_recordType record)
      (ir_recordDate record) (ir_patientAddress record) (ir_filePath record)
      (sha256Hex e) (generatedTransactionHash e) (now e) in
  modifyStorage (fun s =>
    withMedicalRecords s (JSMap.set id medicalRecord (medicalRecords s))
      (id + 1)) ;;;
  saveData e ;;;
  ret medicalRecord.

(** [fs.existsSync] *)
Definition existsSync (path : string) : M bool :=
  fun w => (existsb (String.eqb path) (files w), w).

(** [try { fs.unlinkSync(path) } catch { log }] *)
Definition tryUnlink (e : Env) (path : string) : M unit :=
  fun w =>
    if unlinkSucceeds e
    then (tt, withFiles w (filter (fun p => negb (String.eqb p path)) (files w)))
    else (tt, w).

(** [if (path && fs.existsSync(path)) { try { unlink } catch { log } }] *)
Definition removeFile (e : Env) (path : string) : M unit :=
  fileThere <- existsSync path ;;
  if (negb (String.eqb path "") && fileThere)%bool
  then tryUnlink e path
  else ret tt.

(** One round of the [forEach] of [deleteMedicalRecord]. *)
Definition dropRecordFrom (id : Z) (m : JSMap.t Access.t)
  (entry : Z * Access.t) : JSMap.t Access.t :=
  let (accessId, access) := entry in
  if includes id (Access.recordIds access) then
    let updatedRecordIds :=
      filter (fun recordId => negb (recordId =? id)) (Access.recordIds access) in
    if Z.of_nat (List.length updatedRecordIds) =? 0
    then JSMap.delete accessId m
    else JSMap.set accessId (Access.withRecordIds access updatedRecordIds) m
  else m.

(** The loop runs over a copy of the entries taken before it starts. *)
Definition dropRecordFromAll (id : Z) (m : JSMap.t Access.t)
  : JSMap.t Access.t :=
  fold_left (dropRecordFrom id) (JSMap.entries m) m.

Definition deleteMedicalRecord (e : Env) (id : Z) : M bool :=
  record <- gets (fun s => JSMap.get id (medicalRecords s)) ;;
  match record with
  | None => ret false
  | Some record =>
      removeFile e (MedicalRecord.filePath record) ;;;
      modifyStorage (fun s =>
        withAccessPermissions s (dropRecordFromAll id (accessPermissions s))
          (currentAccessId s)) ;;;
      success <- gets (fun s => JSMap.has id (medicalRecords s)) ;;
      modifyStorage (fun s =>
        withMedicalRecords s (JSMap.delete id (medicalRecords s))
          (currentRecordId s)) ;;;
      if success : bool then saveData e ;;; ret true else ret false
  end.

Definition getAccess (id : Z) : M (option Access.t) :=
  gets (fun s => JSMap.get id (accessPermissions s)).

Definition getAccessByPatient (patientAddress : string) : M (list Access.t) :=
  gets (fun s =>
    filter (fun access => sameAddress (Access.patientAddress access) patientAddress)
           (JSMap.values (accessPermissions s))).

Definition getAccessByDoctor (doctorAddress : string) : M (list Access.t) :=
  gets (fun s =>
    filter (fun access => sameAddress (Access.doctorAddress access) doctorAddress)
           (JSMap.values (accessPermissions s))).

Definition createAccess (e : Env) (access : InsertAccess) : M Access.t :=
  id <- gets currentAccessId ;;
  let accessPermission :=
    Access.mk id (ia_patientAddress access) (ia_doctorAddress access)
      (ia_recordIds access) (ia_duration access) (now e) in
  modifyStorage (fun s =>
    withAccessPermissions s (JSMap.set id accessPermission (accessPermissions s))
      (id + 1)) ;;;
  saveData e ;;;
  ret accessPermission.

Definition revokeAccess (e : Env) (id : Z) : M bool :=
  success <- gets (fun s => JSMap.has id (accessPermissions s)) ;;
  modifyStorage (fun s =>
    withAccessPermissions s (JSMap.delete id (accessPermissions s))
      (currentAccessId s)) ;;;
  if success : bool then saveData e ;;; ret true else ret false.

(** [new Set(xs)] followed by [Array.from]: first occurrences, in order. *)
Fixpoint distinct (seen : list string) (xs : list string) : list string :=
  match xs with
  | [] => []
  | x :: xs' =>
      if existsb (String.eqb x) seen then distinct seen xs'
      else x :: distinct (x :: seen) xs'
  end.

(** The [for ... of] loop of [getAccessibleRecordsByDoctor]. *)
Fixpoint collectRecords (patientAddresses : list string)
  (records : list MedicalRecord.t) : M (list MedicalRecord.t) :=
  match patientAddresses with
  | [] => ret records
  | patientAddress :: rest =>
      patientRecords <- getMedicalRecordsByPatient patientAddress ;;
      collectRecords rest (records ++ patientRecords)
  end.

Definition getAccessibleRecordsByDoctor (doctorAddress : string)
  : M (list Access.t * list MedicalRecord.t) :=
  accessList <- getAccessByDoctor doctorAddress ;;
  let patientAddresses := distinct [] (map Access.patientAddress accessList) in
  records <- collectRecords patientAddresses [] ;;
  ret (accessList, records).

(** ** HTTP surface ([registerRoutes]) *)

Record SessionUser := {
  sessionAddress : string;
  sessionRole : Role
}.

(** [req.session.user], absent before login; [SessionUser] is the shape the
    session augmentation of the source declares, an address string and a
    role.  With sessions and parameters typed so, nothing inside the [try]
    block of a handler throws, and the [catch] branches (which answer 500,
    or 400 in the [POST] routes, and change nothing) are left out. *)
Definition Session : Type := option SessionUser.

Inductive Body :=
| Message (message : string)
| ValidationError
| UserJson (user : User.t)
| RecordsJson (records : list MedicalRecord.t)
| AccessJson (access : Access.t)
| InvalidRecords (message : string) (invalidRecords : list Z)
| FileContents (path : string).

Record Response := {
  status : Z;
  body : Body
}.

Definition respond (code : Z) (b : Body) : M Response :=
  ret {| status := code; body := b |}.

(** The [authenticate] middleware. *)
Definition authenticate (session : Session) (handler : SessionUser -> M Response)
  : M Response :=
  match session with
  | None => respond 401 (Message "Unauthorized")
  | Some user => handler user
  end.

Definition parseRole (s : string) : option Role :=
  if String.eqb s "patient" then Some patient
  else if String.eqb s "doctor" then Some doctor
  else None.

Definition parseDuration (s : string) : option Duration :=
  if String.eqb s "1-day" then Some oneDay
  else if String.eqb s "7-days" then Some sevenDays
  else if String.eqb s "30-days" then Some thirtyDays
  else if String.eqb s "permanent" then Some permanent
  else None.

Definition roleName (r : Role) : string :=
  match r with patient => "patient" | doctor => "doctor" end.

Definition durationName (d : Duration) : string :=
  match d with
  | oneDay => "1-day"
  | sevenDays => "7-days"
  | thirtyDays => "30-days"
  | permanent => "permanent"
  end.

(** Body of [POST /api/users]. *)
Record UserBody := {
  ub_address : string;
  ub_role : string
}.

(** [insertUserSchema.parse]; [None] when it throws. *)
Definition insertUserSchema (b : UserBody) : option InsertUser :=
  match parseRole (ub_role b) with
  | Some r => Some {| iu_address := ub_address b; iu_role := r |}
  | None => None
  end.

Definition postUsers (e : Env) (b : UserBody) : M Response :=
  match insertUserSchema b with
  | None => respond 400 ValidationError
  | Some validatedData =>
      existingUser <- getUserByAddress (iu_address validatedData) ;;
      match existingUser with
      | Some _ => respond 409 (Message "User already exists")
      | None =>
          user <- createUser e validatedData ;;
          respond 201 (UserJson user)
      end
  end.

(** The test the record routes make for a doctor: some grant of the doctor
    names the record's patient and holds the record's id. *)
Definition hasAccess (doctorAddress patientAddress : string) (recordId : Z)
  : M bool :=
  accessList <- getAccessByDoctor doctorAddress ;;
  ret (existsb
         (fun access =>
            (sameAddress (Access.patientAddress access) patientAddress
             && includes recordId (Access.recordIds access))%bool)
         accessList).

(** [GET /api/records?patientAddress=]; [None] is a missing parameter. *)
Definition getRecords (session : Session) (patientAddress : option string)
  : M Response :=
  authenticate session (fun user =>
    match patientAddress with
    | None => respond 400 (Message "Patient address is required")
    | Some patientAddress =>
        if String.eqb patientAddress "" then
          respond 400 (Message "Patient address is required")
        else
          let listing :=
            records <- getMedicalRecordsByPatient patientAddress ;;
            respond 200 (RecordsJson records) in
          match sessionRole user with
          | patient =>
              if negb (sameAddress (sessionAddress user) patientAddress)
              then respond 403 (Message "You can only view your own records")
              else listing
          | doctor =>
              accessList <- getAccessByDoctor (sessionAddress user) ;;
              let hasAccess :=
                existsb (fun access =>
                           sameAddress (Access.patientAddress access)
                             patientAddress) accessList in
              if negb hasAccess
              then respond 403
                     (Message "You don't have access to this patient's records")
              else listing
          end
    end).

(** [GET /api/records/view/:id]; the parameter is [parseInt(req.params.id)],
    [None] standing for [NaN]. *)
Definition viewRecord (session : Session) (recordId : option Z) : M Response :=
  authenticate session (fun user =>
    match recordId with
    | None => respond 400 (Message "Invalid record ID")
    | Some recordId =>
        record <- getMedicalRecord recordId ;;
        match record with
        | None => respond 404 (Message "Record not found")
        | Some record =>
            let serve :=
              there <- existsSync (MedicalRecord.filePath record) ;;
              if negb there then respond 404 (Message "File not found")
              else respond 200 (FileContents (MedicalRecord.filePath record)) in
            match sessionRole user with
            | patient =>
                if negb (sameAddress (sessionAddress user)
                           (MedicalRecord.patientAddress record))
                then respond 403 (Message "You can only view your own records")
                else serve
            | doctor =>
                allowed <- hasAccess (sessionAddress user)
                             (MedicalRecord.patientAddress record)
                             (MedicalRecord.id record) ;;
                if negb allowed
                then respond 403 (Message "You don't have access to this record")
                else serve
            end
        end
    end).

(** [DELETE /api/records/:id] *)
Definition deleteRecord (e : Env) (session : Session) (recordId : option Z)
  : M Response :=
  authenticate session (fun user =>
    match recordId with
    | None => respond 400 (Message "Invalid record ID")
    | Some recordId =>
        record <- getMedicalRecord recordId ;;
        match record with
        | None => respond 404 (Message "Record not found")
        | Some record =>
            let remove :=
              success <- deleteMedicalRecord e recordId ;;
              if success : bool
              then respond 200 (Message "Record deleted successfully")
              else respond 500 (Message "Failed to delete record") in
            match sessionRole user with
            | patient =>
                if negb (sameAddress (sessionAddress user)
                           (MedicalRecord.patientAddress record))
                then respond 403 (Message "You can only delete your own records")
                else remove
            | doctor =>
                allowed <- hasAccess (sessionAddress user)
                             (MedicalRecord.patientAddress record)
                             (MedicalRecord.id record) ;;
                if negb allowed
                then respond 403
                       (Message "You don't have access to delete this record")
                else remove
            end
        end
    end).

(** Body of [POST /api/access]. *)
Record AccessBody := {
  ab_doctorAddress : string;
  ab_recordIds : list Z;
  ab_accessDuration : string;
  ab_patientAddress : string
}.

(** [insertAccessSchema.parse]; [None] when it throws. *)
Definition insertAccessSchema (b : AccessBody) : option InsertAccess :=
  match parseDuration (ab_accessDuration b) with
  | Some d =>
      Some {| ia_patientAddress := ab_patientAddress b;
              ia_doctorAddress := ab_doctorAddress b;
              ia_recordIds := ab_recordIds b;
              ia_duration := d |}
  | None => None
  end.

Definition postAccess (e : Env) (session : Session) (b : AccessBody)
  : M Response :=
  authenticate session (fun user =>
    match sessionRole user with
    | doctor => respond 403 (Message "Only patients can grant access")
    | patient =>
        if negb (sameAddress (sessionAddress user) (ab_patientAddress b))
        then respond 403
               (Message "You can only grant access to your own records")
        else
          match insertAccessSchema b with
          | None => respond 400 ValidationError
          | Some accessData =>
              patientRecords <- getMedicalRecordsByPatient (ab_patientAddress b) ;;
              let patientRecordIds := map MedicalRecord.id patientRecords in
              let invalidRecords :=
                filter (fun id => negb (includes id patientRecordIds))
                       (ab_recordIds b) in
              if 0 <? Z.of_nat (List.length invalidRecords)
              then respond 400
                     (InvalidRecords "Some records don't belong to you"
                        invalidRecords)
              else
                access <- createAccess e accessData ;;
                respond 201 (AccessJson access)
          end
    end).

(** [DELETE /api/access/:id] *)
Definition deleteAccess (e : Env) (session : Session) (accessId : option Z)
  : M Response :=
  authenticate session (fun user =>
    match accessId with
    | None => respond 400 (Message "Invalid access ID")
    | Some accessId =>
        access <- getAccess accessId ;;
        match access with
        | None => respond 404 (Message "Access permission not found")
        | Some access =>
            if (match sessionRole user with patient => true | doctor => false end
                && negb (sameAddress (sessionAddress user)
                           (Access.patientAddress access)))%bool
            then respond 403
                   (Message "You can only revoke your own access permissions")
            else
              success <- revokeAccess e accessId ;;
              if success : bool
              then respond 200 (Message "Access revoked successfully")
              else respond 500 (Message "Failed to revoke access")
        end
    end).

(** ** Runs of the server *)

(** One transition of the process: a store operation, a request handled
    by a route that changes the store, a file written under the uploads
    directory, or a restart. *)
Inductive step : World -> World -> Prop :=
| step_createUser e u w :
    step w (snd (createUser e u w))
| step_createMedicalRecord e r w :
    step w (snd (createMedicalRecord e r w))
| step_deleteMedicalRecord e id w :
    step w (snd (deleteMedicalRecord e id w))
| step_createAccess e a w :
    step w (snd (createAccess e a w))
| step_revokeAccess e id w :
    step w (snd (revokeAccess e id w))
| step_postUsers e b w :
    step w (snd (postUsers e b w))
| step_deleteRecord e session id w :
    step w (snd (deleteRecord e session id w))
| step_postAccess e session b w :
    step w (snd (postAccess e session b w))
| step_deleteAccess e session id w :
    step w (snd (deleteAccess e session id w))
| step_fileWritten path w :
    step w (withFiles w (path :: files w))
| step_restart w :
    step w (snd (constructor w)).

(** The states a run can be in, from a first start without a data file. *)
Inductive reachable : World -> Prop :=
| reachable_start fs :
    reachable
      (snd (constructor
              {| storage := emptyStorage; dataFile := None; files := fs |}))
| reachable_step w w' :
    reachable w -> step w w' -> reachable w'.

(** ** Well-formed stores *)

(** [lo < k1 < k2 < ... < kn < hi] *)
Fixpoint ascending (lo : Z) (ks : list Z) (hi : Z) : bool :=
  match ks with
  | [] => lo <? hi
  | k :: ks' => ((lo <? k) && ascending k ks' hi)%bool
  end.

(** Ids are positive, increase along the map and lie below the counter;
    every value carries the key it is stored under. *)
Definition wellKeyed {V} (idOf : V -> Z) (m : JSMap.t V) (next : Z) : bool :=
  (ascending 0 (JSMap.keys m) next
   && forallb (fun entry => idOf (snd entry) =? fst entry) m)%bool.

Definition wfStorage (s : MemStorage) : Prop :=
  wellKeyed User.id (users s) (currentUserId s) = true /\
  wellKeyed MedicalRecord.id (medicalRecords s) (currentRecordId s) = true /\
  wellKeyed Access.id (accessPermissions s) (currentAccessId s) = true.

(** The data file, when there is one, was written from a well-formed store
    or is what a write that failed part-way left. *)
Definition wfWorld (w : World) : Prop :=
  wfStorage (storage w) /\
  (dataFile w = None \/ dataFile w = Some Malformed \/
   exists s0, wfStorage s0 /\ dataFile w = Some (Parsed (toDocument s0))).

(** ** What the specification says, for comparison *)

(** "max(existing ids) + 1, or 1 when the collection is empty" *)
Definition specNextId {V} (m : JSMap.t V) : Z :=
  match JSMap.keys m with
  | [] => 1
  | k :: ks => fold_right Z.max k ks + 1
  end.

(** A grant for the pair (doctor, patient), compared without letter case,
    that holds the record id. *)
Definition grantCovers (D P : string) (i : Z) (a : Access.t) : Prop :=
  toLowerCase (Access.doctorAddress a) = toLowerCase D /\
  toLowerCase (Access.patientAddress a) = toLowerCase P /\
  In i (Access.recordIds a).

(** The same grant with another duration and creation time. *)
Definition retime (f : Access.t -> Duration * Z) (a : Access.t) : Access.t :=
  Access.mk (Access.id a) (Access.patientAddress a) (Access.doctorAddress a)
    (Access.recordIds a) (fst (f a)) (snd (f a)).

Definition retimeAll (f : Access.t -> Duration * Z) (w : World) : World :=
  withStorage w
    (withAccessPermissions (storage w)
       (map (fun entry => (fst entry, retime f (snd entry)))
            (accessPermissions (storage w)))
       (currentAccessId (storage w))).

(** The lifecycle invariant of the data model: no stored grant has an
    empty [recordIds]. *)
Definition noEmptyGrant (s : MemStorage) : Prop :=
  forall a, In a (JSMap.values (accessPermissions s)) ->
            Access.recordIds a <> [].

(** What the loop of [deleteMedicalRecord] leaves of one entry. *)
Definition shrunk (id : Z) (entry : Z * Access.t) : list (Z * Access.t) :=
  let (accessId, access) := entry in
  if includes id (Access.recordIds access) then
    let updatedRecordIds :=
      filter (fun recordId => negb (recordId =? id)) (Access.recordIds access) in
    if Z.of_nat (List.length updatedRecordIds) =? 0 then []
    else [(accessId, Access.withRecordIds access updatedRecordIds)]
  else [entry].

(** Unfolding the handlers down to functions on the world. *)
Ltac run :=
  unfold postUsers, getRecords, viewRecord, deleteRecord, postAccess,
    deleteAccess, authenticate, hasAccess, respond,
    createUser, createMedicalRecord, deleteMedicalRecord, createAccess,
    revokeAccess, getUser, getUserByAddress, getMedicalRecord,
    getMedicalRecordsByPatient, getAccess, getAccessByPatient,
    getAccessByDoctor, existsSync, tryUnlink, constructor, loadData,
    bind, ret, gets, modifyStorage;
  simpl.

(** ** A small scenario *)

Module Example.

Definition env : Env :=
  {| now := 1704103200000;
     sha256Hex := "5d41402abc4b2a76b9719d911017c592ae3f1c0d5b1e4a2f8e7d6c5b4a392817";
     generatedTransactionHash :=
       "0x7c4f1e0a9b3d5f2e8a6c4b1d0e9f7a5c3b2d1e0f9a8b7c6d5e4f3a2b1c0d9e8f";
     writeSucceeds := true;
     writeFailure := BeforeOpen;
     unlinkSucceeds := true |}.

Definition alice : string := "0xA11CE0000000000000000000000000000000BEEF".
Definition aliceLower : string := "0xa11ce0000000000000000000000000000000beef".
Definition drBob : string := "0xD0C0000000000000000000000000000000000B0B".

Definition aliceSession : Session :=
  Some {| sessionAddress := alice; sessionRole := patient |}.
Definition bobSession : Session :=
  Some {| sessionAddress := drBob; sessionRole := doctor |}.

(** First start: no data file, one uploaded file on disk. *)
Definition fresh : World :=
  snd (constructor {| storage := emptyStorage; dataFile := None;
                      files := ["uploads/file-1.pdf"] |}).

Definition labA : InsertMedicalRecord :=
  {| ir_title := "Lab A"; ir_recordType := "lab-result";
     ir_recordDate := "2024-01-01"; ir_patientAddress := alice;
     ir_filePath := "uploads/file-1.pdf" |}.

Definition xRay : InsertMedicalRecord :=
  {| ir_title := "X-ray"; ir_recordType := "imaging";
     ir_recordDate := "2024-02-01"; ir_patientAddress := alice;
     ir_filePath := "uploads/file-2.png" |}.

(** Alice has uploaded two records. *)
Definition uploaded : World :=
  snd (createMedicalRecord env xRay (snd (createMedicalRecord env labA fresh))).

Definition grantLabA : AccessBody :=
  {| ab_doctorAddress := drBob; ab_recordIds := [1];
     ab_accessDuration := "7-days"; ab_patientAddress := alice |}.

(** Alice has granted Dr Bob the first record, once and twice. *)
Definition granted : World :=
  snd (postAccess env aliceSession grantLabA uploaded).
Definition grantedTwice : World :=
  snd (postAccess env aliceSession grantLabA granted).

Definition grantBoth : AccessBody :=
  {| ab_doctorAddress := drBob; ab_recordIds := [1; 2];
     ab_accessDuration := "30-days"; ab_patientAddress := aliceLower |}.

(** Grant 1 holds record 1; grant 2 holds records 1 and 2. *)
Definition sharedBoth : World :=
  snd (postAccess env aliceSession grantBoth granted).

(** The first record as stored. *)
Definition labARecord : MedicalRecord.t :=
  MedicalRecord.mk 1 "Lab A" "lab-result" "2024-01-01" alice
    "uploads/file-1.pdf" (sha256Hex env) (generatedTransactionHash env)
    (now env).

Definition grantNothing : AccessBody :=
  {| ab_doctorAddress := drBob; ab_recordIds := [];
     ab_accessDuration := "7-days"; ab_patientAddress := alice |}.

End Example.

(** ** The other routes of the HTTP surface *)

(** What the routes below answer with. *)
Inductive Payload :=
| Text (message : string)
| ExistsJson (found : bool) (role : option Role)
| RecordJson (record : MedicalRecord.t)
| AccessListJson (accessList : list Access.t)
| AccessibleJson (accessList : list Access.t) (records : list MedicalRecord.t)
| Download (path : string) (title : string)
| ErrorPage.

Record Reply := {
  code : Z;
  payload : Payload
}.

Definition reply (c : Z) (p : Payload) : M Reply :=
  ret {| code := c; payload := p |}.

(** The [authenticate] middleware, before a handler of the routes below. *)
Definition authenticated (session : Session) (handler : SessionUser -> M Reply)
  : M Reply :=
  match session with
  | None => reply 401 (Text "Unauthorized")
  | Some user => handler user
  end.

(** [GET /api/users/check/:address] *)
Definition checkUser (address : string) : M Reply :=
  user <- getUserByAddress address ;;
  match user with
  | Some user => reply 200 (ExistsJson true (Some (User.role user)))
  | None => reply 200 (ExistsJson false None)
  end.

(** Fields of the multipart body of [POST /api/records]; a field that was
    not sent is the empty string (both are falsy for the handler). *)
Record RecordBody := {
  rb_title : string;
  rb_recordType : string;
  rb_recordDate : string;
  rb_patientAddress : string
}.

(** What the upload middleware ([upload.single("file")]) makes of the
    request before the handler runs: the request carried no file; the file
    was accepted and written (it is [req.file], at [req.file.path]); or the
    file filter or the size limit turned the file down, in which case the
    middleware keeps no file and hands its error on, the handler is not
    run and the error handler of the framework answers 500. *)
Inductive Upload :=
| NoFile
| Stored (path : string)
| Refused.

(** The upload as [multer] has stored it before the handler runs. *)
Definition storeUpload (path : string) : M unit :=
  fun w => (tt, withFiles w (path :: files w)).

(** [POST /api/records] *)
Definition postRecords (e : Env) (session : Session) (file : Upload)
  (b : RecordBody) : M Reply :=
  authenticated session (fun user =>
    match file with
    | Refused => reply 500 ErrorPage
    | NoFile => reply 400 (Text "No file uploaded")
    | Stored path =>
        storeUpload path ;;;
        if (String.eqb (rb_title b) "" || String.eqb (rb_recordType b) ""
            || String.eqb (rb_recordDate b) ""
            || String.eqb (rb_patientAddress b) "")%bool
        then reply 400 (Text "Missing required fields")
        else if (match sessionRole user with patient => true | doctor => false end
                 && negb (sameAddress (sessionAddress user)
                            (rb_patientAddress b)))%bool
        then reply 403 (Text "You can only upload records for yourself")
        else
          record <- createMedicalRecord e
                      {| ir_title := rb_title b;
                         ir_recordType := rb_recordType b;
                         ir_recordDate := rb_recordDate b;
                         ir_patientAddress := rb_patientAddress b;
                         ir_filePath := path |} ;;
          reply 201 (RecordJson record)
    end).

(** [GET /api/records/download/:id]; the file is sent under the record's
    title followed by the extension of its path. *)
Definition downloadRecord (session : Session) (recordId : option Z) : M Reply :=
  authenticated session (fun user =>
    match recordId with
    | None => reply 400 (Text "Invalid record ID")
    | Some recordId =>
        record <- getMedicalRecord recordId ;;
        match record with
        | None => reply 404 (Text "Record not found")
        | Some record =>
            let serve :=
              there <- existsSync (MedicalRecord.filePath record) ;;
              if negb there then reply 404 (Text "File not found")
              else reply 200 (Download (MedicalRecord.filePath record)
                                (MedicalRecord.title record)) in
            match sessionRole user with
            | patient =>
                if negb (sameAddress (sessionAddress user)
                           (MedicalRecord.patientAddress record))
                then reply 403 (Text "You can only download your own records")
                else serve
            | doctor =>
                allowed <- hasAccess (sessionAddress user)
                             (MedicalRecord.patientAddress record)
                             (MedicalRecord.id record) ;;
                if negb allowed
                then reply 403 (Text "You don't have access to this record")
                else serve
            end
        end
    end).

(** [GET /api/access?patientAddress=] *)
Definition listAccess (session : Session) (patientAddress : option string)
  : M Reply :=
  authenticated session (fun user =>
    match patientAddress with
    | None => reply 400 (Text "Patient address is required")
    | Some patientAddress =>
        if String.eqb patientAddress "" then
          reply 400 (Text "Patient address is required")
        else if (match sessionRole user with patient => true | doctor => false end
                 && negb (sameAddress (sessionAddress user) patientAddress))%bool
        then reply 403 (Text "You can only view your own access permissions")
        else
          accessList <- getAccessByPatient patientAddress ;;
          reply 200 (AccessListJson accessList)
    end).

(** [GET /api/access/doctor?doctorAddress=] *)
Definition listAccessDoctor (session : Session) (doctorAddress : option string)
  : M Reply :=
  authenticated session (fun user =>
    match doctorAddress with
    | None => reply 400 (Text "Doctor address is required")
    | Some doctorAddress =>
        if String.eqb doctorAddress "" then
          reply 400 (Text "Doctor address is required")
        else if (match sessionRole user with doctor => true | patient => false end
                 && negb (sameAddress (sessionAddress user) doctorAddress))%bool
        then reply 403 (Text "You can only view your own accessible records")
        else
          accessibleRecords <- getAccessibleRecordsByDoctor doctorAddress ;;
          reply 200 (AccessibleJson (fst accessibleRecords)
                       (snd accessibleRecords))
    end).

(** The permission test the view, download and delete routes make once the
    record is found. *)
Definition permitted (user : SessionUser) (record : MedicalRecord.t)
  (w : World) : bool :=
  match sessionRole user with
  | patient =>
      sameAddress (sessionAddress user) (MedicalRecord.patientAddress record)
  | doctor =>
      fst (hasAccess (sessionAddress user)
             (MedicalRecord.patientAddress record) (MedicalRecord.id record) w)
  end.

(** ** Runs driven by requests only *)

(** One request that can change the state, or a restart. *)
Inductive request : World -> World -> Prop :=
| request_postUsers e b w :
    request w (snd (postUsers e b w))
| request_postRecords e session file b w :
    request w (snd (postRecords e session file b w))
| request_deleteRecord e session id w :
    request w (snd (deleteRecord e session id w))
| request_postAccess e session b w :
    request w (snd (postAccess e session b w))
| request_deleteAccess e session id w :
    request w (snd (deleteAccess e session id w))
| request_restart w :
    request w (snd (constructor w)).

(** The states of a server that has only been talked to over HTTP. *)
Inductive served : World -> Prop :=
| served_start fs :
    served
      (snd (constructor
              {| storage := emptyStorage; dataFile := None; files := fs |}))
| served_request w w' :
    served w -> request w w' -> served w'.

(** No two users share an address, letter case aside. *)
Definition uniqueAddresses (s : MemStorage) : Prop :=
  forall k1 u1 k2 u2,
    In (k1, u1) (users s) -> In (k2, u2) (users s) ->
    toLowerCase (User.address u1) = toLowerCase (User.address u2) ->
    k1 = k2.

(** Every record id of every grant is the id of a stored record of the
    grant's patient. *)
Definition grantsRefer (s : MemStorage) : Prop :=
  forall a i,
    In a (JSMap.values (accessPermissions s)) ->
    In i (Access.recordIds a) ->
    exists r, JSMap.get i (medicalRecords s) = Some r /\
              toLowerCase (MedicalRecord.patientAddress r)
              = toLowerCase (Access.patientAddress a).

Definition storeInvariant (s : MemStorage) : Prop :=
  wfStorage s /\ uniqueAddresses s /\ grantsRefer s.

Definition worldInvariant (w : World) : Prop :=
  storeInvariant (storage w) /\
  (dataFile w = None \/ dataFile w = Some Malformed \/
   exists s0, storeInvariant s0 /\ dataFile w = Some (Parsed (toDocument s0))).

(** ** Client code ([client/src/lib/blockchain.ts] and the pages) *)

(** [chars[i]] appended to a string: a missing index gives [undefined]. *)
Definition charAt (chars : string) (i : Z) : string :=
  if 0 <=? i then
    match String.get (Z.to_nat i) chars with
    | Some c => String c EmptyString
    | None => "undefined"
    end
  else "undefined".

(** The loop [for (i = from; i < from + n; i++) acc += chars[draw i]], where
    [draw i] is [Math.floor(Math.random() * chars.length)] at round [i]. *)
Fixpoint appendDraws (chars : string) (draw : nat -> Z) (n from : nat)
  (acc : string) : string :=
  match n with
  | O => acc
  | S n' =>
      appendDraws chars draw n' (S from)
        (String.append acc (charAt chars (draw from)))
  end.

Definition generateTransactionHash (draw : nat -> Z) : string :=
  appendDraws "0123456789abcdef" draw 64 0 "0x".

Definition generateBlockchainAddress (draw : nat -> Z) : string :=
  appendDraws "0123456789abcdef" draw 40 0 "0x".

Fixpoint allChars (p : ascii -> bool) (s : string) : bool :=
  match s with
  | EmptyString => true
  | String c s' => (p c && allChars p s')%bool
  end.

Definition inRange (lo hi : nat) (c : ascii) : bool :=
  (Nat.leb lo (nat_of_ascii c) && Nat.leb (nat_of_ascii c) hi)%bool.

(** The class [[a-fA-F0-9]] *)
Definition isHexDigit (c : ascii) : bool :=
  (inRange 97 102 c || inRange 65 70 c || inRange 48 57 c)%bool.

(** The class [[0-9a-f]] *)
Definition isLowerHexDigit (c : ascii) : bool :=
  (inRange 48 57 c || inRange 97 102 c)%bool.

(** The test [/^0x[a-fA-F0-9]{40}$/] of the grant form. *)
Definition isEthereumAddress (s : string) : bool :=
  match s with
  | String "0" (String "x" rest) =>
      (Nat.eqb (String.length rest) 40 && allChars isHexDigit rest)%bool
  | _ => false
  end.

(** [grantAccessSchema] of the grant form: does the form validate? *)
Definition grantAccessSchema (doctorAddress : string) (recordIds : list Z)
  (accessDuration : string) : bool :=
  (Nat.leb 1 (String.length doctorAddress) && isEthereumAddress doctorAddress
   && Nat.leb 1 (List.length recordIds)
   && Nat.leb 1 (String.length accessDuration))%bool.

(** The body the grant form posts for the logged-in user. *)
Definition grantRequest (userAddress doctorAddress : string)
  (recordIds : list Z) (accessDuration : string) : AccessBody :=
  {| ab_doctorAddress := doctorAddress; ab_recordIds := recordIds;
     ab_accessDuration := accessDuration; ab_patientAddress := userAddress |}.

(** The interval callback of [simulateBlockchainTransaction], run once per
    element of [draws] (each is [Math.floor(Math.random() * 10)]) until the
    interval is cleared: the values passed to [progressCallback], and
    whether [onComplete] was scheduled. *)
Fixpoint simulateTicks (progress : Z) (draws : list Z) : list Z * bool :=
  match draws with
  | [] => ([], false)
  | d :: rest =>
      let progress := progress + (d + 5) in
      if 100 <=? progress then ([100], true)
      else
        let (reported, completed) := simulateTicks progress rest in
        (progress :: reported, completed)
  end.

Definition simulateBlockchainTransaction (draws : list Z) : list Z * bool :=
  simulateTicks 0 draws.

(** The grouping the doctor's page makes of [GET /api/access/doctor]. *)
Record PatientAccessGroup := {
  group_patientAddress : string;
  group_accessDetails : Access.t;
  group_records : list MedicalRecord.t
}.

Definition groupRecords (accessList : list Access.t)
  (records : list MedicalRecord.t) : list PatientAccessGroup :=
  map (fun access =>
         {| group_patientAddress := Access.patientAddress access;
            group_accessDetails := access;
            group_records :=
              filter (fun record =>
                        (String.eqb (MedicalRecord.patientAddress record)
                                    (Access.patientAddress access)
                         && includes (MedicalRecord.id record)
                                     (Access.recordIds access))%bool)
                     records |})
      accessList.

(** * Properties *)

(** ** Lists and maps *)

Lemma sameAddress_true a b :
  sameAddress a b = true <-> toLowerCase a = toLowerCase b.
Proof. unfold sameAddress. apply String.eqb_eq. Qed.

Lemma includes_In x l : includes x l = true <-> In x l.
Proof.
  unfold includes. rewrite existsb_exists. split.
  - intros [y [Hy Heq]]. apply Z.eqb_eq in Heq. now subst.
  - intros H. exists x. split; [assumption | apply Z.eqb_refl].
Qed.

Module JSMapFacts.
Import JSMap.

Section Facts.
Context {V : Type}.
Implicit Types (m : t V) (k : Z) (v : V).

Lemma get_set_same k v m : get k (set k v m) = Some v.
Proof.
  induction m as [|[k' v'] m IH]; simpl.
  - now rewrite Z.eqb_refl.
  - destruct (k =? k') eqn:E; simpl; rewrite ?Z.eqb_refl, ?E; auto.
Qed.

Lemma get_set_other k k' v m : k <> k' -> get k (set k' v m) = get k m.
Proof.
  intros Hne. induction m as [|[k0 v0] m IH]; simpl.
  - apply Z.eqb_neq in Hne. now rewrite Hne.
  - destruct (k' =? k0) eqn:E; simpl.
    + apply Z.eqb_eq in E. subst k0.
      apply Z.eqb_neq in Hne. now rewrite Hne.
    + now rewrite IH.
Qed.

Lemma get_delete_same k m : get k (delete k m) = None.
Proof.
  induction m as [|[k' v'] m IH]; simpl; auto.
  destruct (k' =? k) eqn:E; simpl; auto.
  rewrite Z.eqb_sym, E. exact IH.
Qed.

Lemma get_delete_other k k' m : k <> k' -> get k (delete k' m) = get k m.
Proof.
  intros Hne. induction m as [|[k0 v0] m IH]; simpl; auto.
  destruct (k0 =? k') eqn:E; simpl.
  - apply Z.eqb_eq in E. subst k0.
    apply Z.eqb_neq in Hne. now rewrite Hne.
  - now rewrite IH.
Qed.

Lemma get_In k v m : get k m = Some v -> In (k, v) m.
Proof.
  induction m as [|[k' v'] m IH]; simpl; [discriminate|].
  destruct (k =? k') eqn:E.
  - apply Z.eqb_eq in E. intros [= ->]. subst. now left.
  - intros H. right. auto.
Qed.

Lemma get_None_not_In k m : get k m = None -> ~ In k (keys m).
Proof.
  induction m as [|[k' v'] m IH]; simpl; [tauto|].
  destruct (k =? k') eqn:E; [discriminate|].
  apply Z.eqb_neq in E. intros H [Heq | Hin]; [congruence | now apply IH].
Qed.

Lemma In_get k v m : NoDup (keys m) -> In (k, v) m -> get k m = Some v.
Proof.
  induction m as [|[k' v'] m IH]; simpl; [tauto|].
  intros Hnd [Heq | Hin].
  - injection Heq as -> ->. now rewrite Z.eqb_refl.
  - inversion Hnd as [|? ? Hnotin Hnd']; subst.
    destruct (k =? k') eqn:E.
    + apply Z.eqb_eq in E. subst k'. exfalso. apply Hnotin.
      apply (in_map fst) in Hin. exact Hin.
    + auto.
Qed.

Lemma has_get k m : has k m = true <-> get k m <> None.
Proof.
  induction m as [|[k' v'] m IH]; simpl.
  - split; [discriminate | congruence].
  - rewrite (Z.eqb_sym k' k). destruct (k =? k'); simpl.
    + split; [discriminate | reflexivity].
    + exact IH.
Qed.

Lemma has_false_get k m : has k m = false <-> get k m = None.
Proof.
  destruct (has k m) eqn:E.
  - apply has_get in E. split; [discriminate | congruence].
  - split; [|reflexivity]. intros _.
    destruct (get k m) eqn:G; [|reflexivity].
    assert (has k m = true) by (apply has_get; congruence). congruence.
Qed.

Lemma set_fresh k v m : get k m = None -> set k v m = m ++ [(k, v)].
Proof.
  induction m as [|[k' v'] m IH]; simpl; auto.
  destruct (k =? k'); [discriminate|]. intros H. now rewrite IH.
Qed.

Lemma In_values_set k v m : In v (values (set k v m)).
Proof.
  apply (in_map snd _ (k, v)). apply get_In. apply get_set_same.
Qed.

Lemma In_delete k k' v m : In (k', v) (delete k m) <-> In (k', v) m /\ k' <> k.
Proof.
  unfold delete. rewrite filter_In. simpl.
  rewrite negb_true_iff, Z.eqb_neq. reflexivity.
Qed.

End Facts.
End JSMapFacts.

(** ** Ascending keys *)

Lemma ascending_app lo xs k ys hi :
  ascending lo (xs ++ k :: ys) hi = (ascending lo xs k && ascending k ys hi)%bool.
Proof.
  revert lo. induction xs as [|x xs IH]; intros lo; simpl.
  - reflexivity.
  - now rewrite IH, andb_assoc.
Qed.

Lemma ascending_lt lo ks hi : ascending lo ks hi = true -> lo < hi.
Proof.
  revert lo. induction ks as [|k ks IH]; intros lo; simpl.
  - apply Z.ltb_lt.
  - rewrite andb_true_iff, Z.ltb_lt. intros [H1 H2]. apply IH in H2. lia.
Qed.

Lemma ascending_weaken lo lo' ks hi hi' :
  lo' <= lo -> hi <= hi' ->
  ascending lo ks hi = true -> ascending lo' ks hi' = true.
Proof.
  revert lo lo'. induction ks as [|k ks IH]; intros lo lo' Hlo Hhi; simpl.
  - rewrite !Z.ltb_lt. lia.
  - rewrite !andb_true_iff, !Z.ltb_lt. intros [H1 H2]. split; [lia|].
    apply (IH k k); [lia | assumption | assumption].
Qed.

Lemma ascending_bounds lo ks hi :
  ascending lo ks hi = true -> forall k, In k ks -> lo < k < hi.
Proof.
  revert lo. induction ks as [|k0 ks IH]; intros lo; simpl; [tauto|].
  rewrite andb_true_iff, Z.ltb_lt. intros [H1 H2] k [<- | Hin].
  - apply ascending_lt in H2. lia.
  - specialize (IH _ H2 _ Hin). lia.
Qed.

Lemma ascending_NoDup lo ks hi : ascending lo ks hi = true -> NoDup ks.
Proof.
  revert lo. induction ks as [|k ks IH]; intros lo; simpl.
  - constructor.
  - rewrite andb_true_iff. intros [_ H2]. constructor; [|eauto].
    intros Hin. pose proof (ascending_bounds _ _ _ H2 _ Hin). lia.
Qed.

Lemma ascending_snoc lo ks hi :
  ascending lo ks hi = true -> ascending lo (ks ++ [hi]) (hi + 1) = true.
Proof.
  intros H. rewrite ascending_app, H. simpl.
  apply Z.ltb_lt. lia.
Qed.

Lemma ascending_cons_drop lo k ks hi :
  ascending lo (k :: ks) hi = true -> ascending lo ks hi = true.
Proof.
  simpl. rewrite andb_true_iff, Z.ltb_lt. intros [H1 H2].
  apply (ascending_weaken k lo ks hi hi); [lia | lia | assumption].
Qed.

Lemma ascending_filter (f : Z -> bool) lo ks hi :
  ascending lo ks hi = true -> ascending lo (filter f ks) hi = true.
Proof.
  revert lo. induction ks as [|k ks IH]; intros lo H; simpl; [assumption|].
  destruct (f k).
  - simpl in *. apply andb_true_iff in H as [H1 H2].
    rewrite H1. simpl. auto.
  - apply IH. now apply ascending_cons_drop with k.
Qed.

Lemma ascending_maxKey ks hi :
  ascending 0 ks hi = true ->
  ascending 0 ks (fold_right Z.max 0 ks + 1) = true /\
  fold_right Z.max 0 ks + 1 <= hi.
Proof.
  assert (G : forall lo, 0 <= lo -> ascending lo ks hi = true ->
            ascending lo ks (Z.max lo (fold_right Z.max 0 ks) + 1) = true /\
            Z.max lo (fold_right Z.max 0 ks) + 1 <= hi).
  { induction ks as [|k ks IH]; intros lo Hlo; simpl.
    - rewrite !Z.ltb_lt. lia.
    - rewrite !andb_true_iff, !Z.ltb_lt. intros [H1 H2].
      destruct (IH k ltac:(lia) H2) as [A B].
      pose proof (ascending_lt _ _ _ A).
      replace (Z.max lo (Z.max k (fold_right Z.max 0 ks)))
        with (Z.max k (fold_right Z.max 0 ks)) by lia.
      auto. }
  intros H. destruct (G 0 ltac:(lia) H) as [A B].
  replace (Z.max 0 (fold_right Z.max 0 ks)) with (fold_right Z.max 0 ks) in *.
  - auto.
  - clear. induction ks; simpl; lia.
Qed.

Lemma specNextId_maxKey {V} (m : JSMap.t V) hi :
  ascending 0 (JSMap.keys m) hi = true -> maxKey m + 1 = specNextId m.
Proof.
  unfold maxKey, specNextId. destruct (JSMap.keys m) as [|k ks]; [reflexivity|].
  simpl. rewrite andb_true_iff, Z.ltb_lt. intros [Hk Hks]. f_equal.
  clear Hks. induction ks as [|k' ks IH]; simpl; lia.
Qed.

Lemma keys_app {V} (a b : JSMap.t V) :
  JSMap.keys (a ++ b) = JSMap.keys a ++ JSMap.keys b.
Proof. apply map_app. Qed.

Lemma ascending_get_None {V} (m : JSMap.t V) lo k :
  ascending lo (JSMap.keys m) k = true -> JSMap.get k m = None.
Proof.
  intros H. destruct (JSMap.get k m) eqn:G; [|reflexivity].
  apply JSMapFacts.get_In in G. apply (in_map fst) in G.
  pose proof (ascending_bounds _ _ _ H _ G). simpl in *. lia.
Qed.

(** ** Writing and reading the data file *)

Lemma insertIndex_last {V} k (v : V) o lo :
  0 <= lo -> isArrayIndex k = true ->
  ascending lo (JSMap.keys o) k = true -> insertIndex k v o = o ++ [(k, v)].
Proof.
  intros Hlo Hk. revert lo Hlo.
  induction o as [|[k' v'] o IH]; intros lo Hlo; simpl; [reflexivity|].
  rewrite andb_true_iff, Z.ltb_lt. intros [H1 H2].
  pose proof (ascending_lt _ _ _ H2) as Hlt.
  assert (E : (isArrayIndex k' && (k' <? k))%bool = true).
  { unfold isArrayIndex in *. rewrite !andb_true_iff in *.
    rewrite !Z.ltb_lt, !Z.leb_le in *. lia. }
  rewrite E. f_equal. apply (IH k'); [lia | assumption].
Qed.

Lemma defineProperty_last {V} k (v : V) o :
  ascending 0 (JSMap.keys o) k = true -> defineProperty k v o = o ++ [(k, v)].
Proof.
  intros H. unfold defineProperty.
  pose proof (ascending_get_None _ _ _ H) as G.
  apply JSMapFacts.has_false_get in G. rewrite G.
  destruct (isArrayIndex k) eqn:E; [|reflexivity].
  apply (insertIndex_last k v o 0); [lia | assumption | assumption].
Qed.

Lemma fold_defineProperty {V} (l acc : list (Z * V)) hi :
  ascending 0 (JSMap.keys (acc ++ l)) hi = true ->
  fold_left (fun o e => defineProperty (fst e) (snd e) o) l acc = acc ++ l.
Proof.
  revert acc. induction l as [|[k v] l IH]; intros acc H; simpl.
  - now rewrite app_nil_r.
  - rewrite keys_app in H. simpl in H. rewrite ascending_app in H.
    apply andb_true_iff in H as [H1 H2].
    rewrite (defineProperty_last k v acc H1).
    rewrite IH; rewrite <- app_assoc; simpl; [reflexivity|].
    rewrite keys_app. simpl. rewrite ascending_app, H1, H2. reflexivity.
Qed.

Lemma fromEntries_ascending {V} (m : JSMap.t V) hi :
  ascending 0 (JSMap.keys m) hi = true -> fromEntries m = m.
Proof.
  intros H. unfold fromEntries, JSMap.entries.
  now rewrite (fold_defineProperty m [] hi).
Qed.

Lemma fold_set {V} (l acc : list (Z * V)) lo hi :
  ascending lo (JSMap.keys (acc ++ l)) hi = true ->
  fold_left (fun m e => JSMap.set (fst e) (snd e) m) l acc = acc ++ l.
Proof.
  revert acc. induction l as [|[k v] l IH]; intros acc H; simpl.
  - now rewrite app_nil_r.
  - rewrite keys_app in H. simpl in H. rewrite ascending_app in H.
    apply andb_true_iff in H as [H1 H2].
    rewrite (JSMapFacts.set_fresh k v acc (ascending_get_None _ _ _ H1)).
    rewrite IH; rewrite <- app_assoc; simpl; [reflexivity|].
    rewrite keys_app. simpl. rewrite ascending_app, H1, H2. reflexivity.
Qed.

Lemma mapOfObject_ascending {V} (o : JSObject V) lo hi :
  ascending lo (JSMap.keys o) hi = true -> mapOfObject o = o.
Proof.
  intros H. unfold mapOfObject, JSMap.empty.
  now rewrite (fold_set o [] lo hi).
Qed.

(** ** The cascade of [deleteMedicalRecord] *)

Lemma delete_not_In {V} k (m : JSMap.t V) :
  ~ In k (JSMap.keys m) -> JSMap.delete k m = m.
Proof.
  induction m as [|[k' v'] m IH]; simpl; [reflexivity|].
  intros H. destruct (k' =? k) eqn:E; simpl.
  - apply Z.eqb_eq in E. tauto.
  - f_equal. apply IH. tauto.
Qed.

Lemma delete_middle {V} k (v : V) pre l :
  ~ In k (JSMap.keys pre) -> ~ In k (JSMap.keys l) ->
  JSMap.delete k (pre ++ (k, v) :: l) = pre ++ l.
Proof.
  intros Hpre Hl. unfold JSMap.delete. rewrite filter_app. simpl.
  rewrite Z.eqb_refl. simpl.
  fold (JSMap.delete k pre). fold (JSMap.delete k l).
  now rewrite !delete_not_In.
Qed.

Lemma set_middle {V} k (v v' : V) pre l :
  ~ In k (JSMap.keys pre) ->
  JSMap.set k v' (pre ++ (k, v) :: l) = pre ++ (k, v') :: l.
Proof.
  induction pre as [|[k0 v0] pre IH]; simpl; intros H.
  - now rewrite Z.eqb_refl.
  - destruct (k =? k0) eqn:E.
    + apply Z.eqb_eq in E. subst. tauto.
    + f_equal. apply IH. tauto.
Qed.

Lemma NoDup_keys_middle {V} k (v : V) pre l :
  NoDup (JSMap.keys (pre ++ (k, v) :: l)) ->
  ~ In k (JSMap.keys pre) /\ ~ In k (JSMap.keys l) /\
  NoDup (JSMap.keys (pre ++ l)).
Proof.
  rewrite !keys_app. simpl. intros H.
  pose proof (NoDup_remove_1 _ _ _ H). pose proof (NoDup_remove_2 _ _ _ H) as N.
  rewrite in_app_iff in N. tauto.
Qed.

Lemma fold_dropRecordFrom id l : forall pre,
  NoDup (JSMap.keys (pre ++ l)) ->
  fold_left (dropRecordFrom id) l (pre ++ l) = pre ++ flat_map (shrunk id) l.
Proof.
  induction l as [|[k a] l IH]; intros pre Hnd.
  - reflexivity.
  - destruct (NoDup_keys_middle _ _ _ _ Hnd) as (Hpre & Hl & Hnd').
    cbn [fold_left flat_map]. unfold dropRecordFrom at 2. unfold shrunk at 1.
    destruct (includes id (Access.recordIds a)).
    + cbv zeta.
      destruct (Z.of_nat (List.length
                  (filter (fun recordId => negb (recordId =? id))
                          (Access.recordIds a))) =? 0).
      * rewrite delete_middle by assumption. now apply IH.
      * rewrite set_middle by assumption.
        change (pre ++ (k, ?x) :: l) with (pre ++ [(k, x)] ++ l).
        rewrite app_assoc, IH, <- app_assoc; [reflexivity|].
        rewrite <- app_assoc. simpl. rewrite keys_app in *. exact Hnd.
    + change (pre ++ (k, a) :: l) with (pre ++ [(k, a)] ++ l).
      rewrite app_assoc, IH, <- app_assoc; [reflexivity|].
      rewrite <- app_assoc. exact Hnd.
Qed.

Lemma dropRecordFromAll_flat_map id m :
  NoDup (JSMap.keys m) -> dropRecordFromAll id m = flat_map (shrunk id) m.
Proof.
  intros H. unfold dropRecordFromAll, JSMap.entries.
  exact (fold_dropRecordFrom id m [] H).
Qed.

Lemma not_In_get_None {V} k (m : JSMap.t V) :
  ~ In k (JSMap.keys m) -> JSMap.get k m = None.
Proof.
  intros H. destruct (JSMap.get k m) eqn:G; [|reflexivity].
  apply JSMapFacts.get_In in G. apply (in_map fst) in G. tauto.
Qed.

Lemma keys_shrunk id m k :
  In k (JSMap.keys (flat_map (shrunk id) m)) -> In k (JSMap.keys m).
Proof.
  induction m as [|[k' a] m IH]; simpl; [tauto|].
  rewrite keys_app, in_app_iff. intros [H | H]; [|auto].
  left. unfold shrunk in H. destruct (includes id (Access.recordIds a)).
  - cbv zeta in H. destruct (Z.of_nat _ =? 0); simpl in H; tauto.
  - simpl in H. tauto.
Qed.

(** The grant stored under [g] after the cascade, from the one before. *)
Lemma get_shrunk id m g :
  NoDup (JSMap.keys m) ->
  JSMap.get g (flat_map (shrunk id) m) =
  match JSMap.get g m with
  | None => None
  | Some a =>
      if includes id (Access.recordIds a) then
        match filter (fun r => negb (r =? id)) (Access.recordIds a) with
        | [] => None
        | ids => Some (Access.withRecordIds a ids)
        end
      else Some a
  end.
Proof.
  induction m as [|[k a] m IH]; intros Hnd; [reflexivity|].
  inversion Hnd as [|? ? Hnotin Hnd']; subst.
  cbn [flat_map JSMap.get]. destruct (g =? k) eqn:E.
  - apply Z.eqb_eq in E. subst k. unfold shrunk.
    destruct (includes id (Access.recordIds a)).
    + cbv zeta.
      destruct (filter (fun r => negb (r =? id)) (Access.recordIds a)) eqn:F.
      * simpl. apply not_In_get_None. intros H. apply keys_shrunk in H. tauto.
      * cbn [List.length]. rewrite Nat2Z.inj_succ.
        destruct (Z.succ _ =? 0) eqn:Z0; [apply Z.eqb_eq in Z0; lia|].
        simpl. now rewrite Z.eqb_refl.
    + simpl. now rewrite Z.eqb_refl.
  - rewrite <- (IH Hnd'). unfold shrunk.
    destruct (includes id (Access.recordIds a)).
    + cbv zeta. destruct (Z.of_nat _ =? 0); simpl; [reflexivity|].
      now rewrite E.
    + simpl. now rewrite E.
Qed.

Lemma In_filter_neq id ids : ~ In id (filter (fun r => negb (r =? id)) ids).
Proof.
  rewrite filter_In, negb_true_iff, Z.eqb_neq. tauto.
Qed.

Lemma In_shrunk id m k a :
  In (k, a) (flat_map (shrunk id) m) -> ~ In id (Access.recordIds a).
Proof.
  rewrite in_flat_map. intros [[k0 a0] [_ H]]. unfold shrunk in H.
  destruct (includes id (Access.recordIds a0)) eqn:I.
  - cbv zeta in H. destruct (Z.of_nat _ =? 0); simpl in H; [tauto|].
    destruct H as [H|[]]. injection H as <- <-. simpl. apply In_filter_neq.
  - destruct H as [H|[]]. injection H as <- <-.
    rewrite <- includes_In. congruence.
Qed.

(** ** Well-formedness is kept *)

Lemma wellKeyed_set_next {V} (idOf : V -> Z) m next v :
  idOf v = next ->
  wellKeyed idOf m next = true ->
  wellKeyed idOf (JSMap.set next v m) (next + 1) = true.
Proof.
  unfold wellKeyed. rewrite !andb_true_iff. intros Hid [Ha Hk].
  rewrite (JSMapFacts.set_fresh next v m (ascending_get_None _ _ _ Ha)).
  split.
  - rewrite keys_app. simpl. now apply ascending_snoc.
  - rewrite forallb_app, Hk. simpl. rewrite Hid, Z.eqb_refl. reflexivity.
Qed.

Lemma keys_delete {V} k (m : JSMap.t V) :
  JSMap.keys (JSMap.delete k m) = filter (fun k' => negb (k' =? k)) (JSMap.keys m).
Proof.
  induction m as [|[k' v'] m IH]; simpl; [reflexivity|].
  destruct (k' =? k); simpl; now rewrite IH.
Qed.

Lemma wellKeyed_delete {V} (idOf : V -> Z) m next k :
  wellKeyed idOf m next = true ->
  wellKeyed idOf (JSMap.delete k m) next = true.
Proof.
  unfold wellKeyed. rewrite !andb_true_iff. intros [Ha Hk]. split.
  - rewrite keys_delete. now apply ascending_filter.
  - rewrite forallb_forall in *. intros x Hx. apply Hk.
    unfold JSMap.delete in Hx. apply filter_In in Hx. tauto.
Qed.

Lemma wellKeyed_NoDup {V} (idOf : V -> Z) m next :
  wellKeyed idOf m next = true -> NoDup (JSMap.keys m).
Proof.
  unfold wellKeyed. rewrite andb_true_iff. intros [Ha _].
  eapply ascending_NoDup; eassumption.
Qed.

Lemma wellKeyed_In {V} (idOf : V -> Z) m next k v :
  wellKeyed idOf m next = true -> In (k, v) m -> idOf v = k.
Proof.
  unfold wellKeyed. rewrite andb_true_iff, forallb_forall. intros [_ Hk] Hin.
  apply Hk in Hin. simpl in Hin. now apply Z.eqb_eq.
Qed.

Lemma ascending_shrunk id m lo hi :
  ascending lo (JSMap.keys m) hi = true ->
  ascending lo (JSMap.keys (flat_map (shrunk id) m)) hi = true.
Proof.
  revert lo. induction m as [|[k a] m IH]; intros lo H; [assumption|].
  cbn [flat_map]. rewrite keys_app.
  assert (D : ascending lo (JSMap.keys (flat_map (shrunk id) m)) hi = true).
  { apply IH. now apply ascending_cons_drop with k. }
  assert (K : forall a' : Access.t, ascending lo
             (JSMap.keys [(k, a')] ++ JSMap.keys (flat_map (shrunk id) m)) hi
             = true).
  { intros a'. simpl in *. apply andb_true_iff in H as [H1 H2].
    rewrite H1. simpl. now apply IH. }
  unfold shrunk. destruct (includes id (Access.recordIds a)).
  - cbv zeta. destruct (Z.of_nat _ =? 0); [exact D | apply K].
  - apply K.
Qed.

Lemma wellKeyed_dropRecordFromAll id m next :
  wellKeyed Access.id m next = true ->
  wellKeyed Access.id (dropRecordFromAll id m) next = true.
Proof.
  intros H. rewrite dropRecordFromAll_flat_map by (eapply wellKeyed_NoDup; eauto).
  unfold wellKeyed in *. apply andb_true_iff in H as [Ha Hk].
  rewrite ascending_shrunk by assumption. simpl.
  rewrite forallb_forall in *. intros [k a] Hin.
  apply in_flat_map in Hin as [[k0 a0] [Hin0 Hs]].
  specialize (Hk _ Hin0). simpl in Hk. unfold shrunk in Hs.
  destruct (includes id (Access.recordIds a0)).
  - cbv zeta in Hs. destruct (Z.of_nat _ =? 0); simpl in Hs; [tauto|].
    destruct Hs as [Hs|[]]. injection Hs as <- <-. exact Hk.
  - destruct Hs as [Hs|[]]. injection Hs as <- <-. exact Hk.
Qed.

Lemma wellKeyed_reload {V} (idOf : V -> Z) m next :
  wellKeyed idOf m next = true ->
  mapOfObject (fromEntries m) = m /\
  wellKeyed idOf m (maxKey m + 1) = true.
Proof.
  unfold wellKeyed. rewrite !andb_true_iff. intros [Ha Hk].
  rewrite (fromEntries_ascending m next Ha).
  rewrite (mapOfObject_ascending m 0 next Ha).
  destruct (ascending_maxKey _ _ Ha) as [A _]. unfold maxKey. auto.
Qed.

Lemma wfStorage_empty : wfStorage emptyStorage.
Proof. repeat split. Qed.

Lemma wfWorld_withStorage w s :
  wfWorld w -> wfStorage s -> wfWorld (withStorage w s).
Proof. intros [_ Hd] Hs. split; assumption. Qed.

Lemma wfWorld_withFiles w fs : wfWorld w -> wfWorld (withFiles w fs).
Proof. intros [Hs Hd]. split; assumption. Qed.

Lemma wfWorld_saveData e w : wfWorld w -> wfWorld (snd (saveData e w)).
Proof.
  intros [Hs Hd]. unfold saveData.
  destruct (writeSucceeds e); [|destruct (writeFailure e)]; simpl;
    (split; [assumption|]); auto.
  - right. right. exists (storage w). auto.
  - right. right. exists (storage w). auto.
Qed.

Lemma wfWorld_createUser e u w : wfWorld w -> wfWorld (snd (createUser e u w)).
Proof.
  intros H. run. match goal with |- context [saveData e ?x] =>
    assert (W : wfWorld x) end.
  { apply wfWorld_withStorage; [assumption|].
    destruct H as [(Hu & Hr & Ha) _]. repeat split; simpl; try assumption.
    now apply wellKeyed_set_next. }
  apply (wfWorld_saveData e) in W. destruct (saveData e _). exact W.
Qed.

Lemma wfWorld_createMedicalRecord e r w :
  wfWorld w -> wfWorld (snd (createMedicalRecord e r w)).
Proof.
  intros H. run. match goal with |- context [saveData e ?x] =>
    assert (W : wfWorld x) end.
  { apply wfWorld_withStorage; [assumption|].
    destruct H as [(Hu & Hr & Ha) _]. repeat split; simpl; try assumption.
    now apply wellKeyed_set_next. }
  apply (wfWorld_saveData e) in W. destruct (saveData e _). exact W.
Qed.

Lemma wfWorld_createAccess e a w :
  wfWorld w -> wfWorld (snd (createAccess e a w)).
Proof.
  intros H. run. match goal with |- context [saveData e ?x] =>
    assert (W : wfWorld x) end.
  { apply wfWorld_withStorage; [assumption|].
    destruct H as [(Hu & Hr & Ha) _]. repeat split; simpl; try assumption.
    now apply wellKeyed_set_next. }
  apply (wfWorld_saveData e) in W. destruct (saveData e _). exact W.
Qed.

Lemma removeFile_storage e path w :
  storage (snd (removeFile e path w)) = storage w /\
  dataFile (snd (removeFile e path w)) = dataFile w.
Proof.
  unfold removeFile, existsSync, tryUnlink, bind, ret. simpl.
  destruct (_ && _)%bool; [|auto]. destruct (unlinkSucceeds e); auto.
Qed.

Lemma wfWorld_removeFile e path w :
  wfWorld w -> wfWorld (snd (removeFile e path w)).
Proof.
  destruct (removeFile_storage e path w) as [Hs Hd].
  unfold wfWorld. now rewrite Hs, Hd.
Qed.

Lemma wfWorld_revokeAccess e id w :
  wfWorld w -> wfWorld (snd (revokeAccess e id w)).
Proof.
  intros H. run.
  set (w1 := withStorage w _).
  assert (W : wfWorld w1).
  { apply wfWorld_withStorage; [assumption|].
    destruct H as [(Hu & Hr & Ha) _]. repeat split; simpl; try assumption.
    now apply wellKeyed_delete. }
  destruct (JSMap.has id _); simpl; [|exact W].
  apply (wfWorld_saveData e) in W. destruct (saveData e _). exact W.
Qed.

Lemma wfWorld_deleteMedicalRecord e id w :
  wfWorld w -> wfWorld (snd (deleteMedicalRecord e id w)).
Proof.
  intros H. run.
  destruct (JSMap.get id (medicalRecords (storage w))) as [record|]; simpl;
    [|exact H].
  pose proof (wfWorld_removeFile e (MedicalRecord.filePath record) w H) as F.
  destruct (removeFile e (MedicalRecord.filePath record) w) as [[] w1].
  simpl in F.
  set (w2 := withStorage (withStorage w1 _) _).
  assert (W : wfWorld w2).
  { destruct F as [(Hu & Hr & Ha) Hd]. split; [|exact Hd].
    repeat split; simpl; try assumption.
    - now apply wellKeyed_delete.
    - now apply wellKeyed_dropRecordFromAll. }
  destruct (JSMap.has id _); simpl; [|exact W].
  apply (wfWorld_saveData e) in W. destruct (saveData e _). exact W.
Qed.

(** A route leaves the world alone or ends in one store operation. *)
Lemma postUsers_world e b w :
  snd (postUsers e b w) = w \/
  exists u, snd (postUsers e b w) = snd (createUser e u w).
Proof.
  unfold postUsers. destruct (insertUserSchema b) as [u|]; [|now left].
  unfold bind, getUserByAddress, gets, respond, ret. simpl.
  destruct (find _ _); [now left|]. right. exists u.
  now destruct (createUser e u w).
Qed.

Lemma deleteRecord_world e session id w :
  snd (deleteRecord e session id w) = w \/
  exists i, snd (deleteRecord e session id w) = snd (deleteMedicalRecord e i w).
Proof.
  unfold deleteRecord, authenticate. destruct session as [user|]; [|now left].
  destruct id as [i|]; [|now left].
  unfold bind, getMedicalRecord, hasAccess, getAccessByDoctor, gets, respond, ret.
  simpl. destruct (JSMap.get i _) as [record|]; [|now left].
  destruct (sessionRole user).
  - destruct (negb _); [now left|]. right. exists i.
    destruct (deleteMedicalRecord e i w) as [[|] w']; reflexivity.
  - destruct (negb _); [now left|]. right. exists i.
    destruct (deleteMedicalRecord e i w) as [[|] w']; reflexivity.
Qed.

Lemma postAccess_world e session b w :
  snd (postAccess e session b w) = w \/
  exists a, insertAccessSchema b = Some a /\
            snd (postAccess e session b w) = snd (createAccess e a w).
Proof.
  unfold postAccess, authenticate. destruct session as [user|]; [|now left].
  destruct (sessionRole user); [|now left].
  destruct (negb _); [now left|].
  destruct (insertAccessSchema b) as [a|]; [|now left].
  unfold bind, getMedicalRecordsByPatient, gets, respond, ret. simpl.
  destruct (0 <? _); [now left|]. right. exists a. split; [reflexivity|].
  now destruct (createAccess e a w).
Qed.

Lemma deleteAccess_world e session id w :
  snd (deleteAccess e session id w) = w \/
  exists i, snd (deleteAccess e session id w) = snd (revokeAccess e i w).
Proof.
  unfold deleteAccess, authenticate. destruct session as [user|]; [|now left].
  destruct id as [i|]; [|now left].
  unfold bind, getAccess, gets, respond, ret. simpl.
  destruct (JSMap.get i _) as [access|]; [|now left].
  destruct (_ && _)%bool; [now left|]. right. exists i.
  destruct (revokeAccess e i w) as [[|] w']; reflexivity.
Qed.

Lemma wfWorld_constructor w : wfWorld w -> wfWorld (snd (constructor w)).
Proof.
  intros [Hs Hd]. unfold constructor, loadData, bind, modifyStorage. simpl.
  destruct Hd as [Hd | [Hd | (s0 & (Hu & Hr & Ha) & Hd)]]; rewrite Hd; simpl.
  - split; [apply wfStorage_empty | now left].
  - split; [apply wfStorage_empty | right; now left].
  - split; [|right; right; exists s0; repeat split; assumption].
    unfold loadAccessPermissions, loadMedicalRecords, loadUsers. simpl.
    destruct (wellKeyed_reload _ _ _ Hu) as [-> Hu'].
    destruct (wellKeyed_reload _ _ _ Hr) as [-> Hr'].
    destruct (wellKeyed_reload _ _ _ Ha) as [-> Ha'].
    repeat split; assumption.
Qed.

Lemma wfWorld_step w w' : wfWorld w -> step w w' -> wfWorld w'.
Proof.
  intros H S. destruct S.
  - now apply wfWorld_createUser.
  - now apply wfWorld_createMedicalRecord.
  - now apply wfWorld_deleteMedicalRecord.
  - now apply wfWorld_createAccess.
  - now apply wfWorld_revokeAccess.
  - destruct (postUsers_world e b w) as [-> | [u ->]];
      [assumption | now apply wfWorld_createUser].
  - destruct (deleteRecord_world e session id w) as [-> | [i ->]];
      [assumption | now apply wfWorld_deleteMedicalRecord].
  - destruct (postAccess_world e session b w) as [-> | (a & _ & ->)];
      [assumption | now apply wfWorld_createAccess].
  - destruct (deleteAccess_world e session id w) as [-> | [i ->]];
      [assumption | now apply wfWorld_revokeAccess].
  - now apply wfWorld_withFiles.
  - now apply wfWorld_constructor.
Qed.

(** Every state of a run is well formed. *)
Lemma reachable_wf w : reachable w -> wfWorld w.
Proof.
  induction 1 as [fs | w w' _ IH S].
  - apply wfWorld_constructor. split; [apply wfStorage_empty | now left].
  - eapply wfWorld_step; eassumption.
Qed.

(** ** What the operations do to the store *)

Lemma saveData_storage e w :
  storage (snd (saveData e w)) = storage w /\
  files (snd (saveData e w)) = files w.
Proof.
  unfold saveData. destruct (writeSucceeds e); [|destruct (writeFailure e)]; auto.
Qed.

Lemma createAccess_result e a w :
  let g := Access.mk (currentAccessId (storage w)) (ia_patientAddress a)
             (ia_doctorAddress a) (ia_recordIds a) (ia_duration a) (now e) in
  fst (createAccess e a w) = g /\
  storage (snd (createAccess e a w)) =
    withAccessPermissions (storage w)
      (JSMap.set (currentAccessId (storage w)) g (accessPermissions (storage w)))
      (currentAccessId (storage w) + 1) /\
  files (snd (createAccess e a w)) = files w.
Proof.
  run. match goal with |- context [saveData e ?x] =>
    destruct (saveData_storage e x) as [Hs Hf]; destruct (saveData e x) end.
  simpl in *. rewrite Hs, Hf. auto.
Qed.

Lemma revokeAccess_result e g w :
  fst (revokeAccess e g w) = JSMap.has g (accessPermissions (storage w)) /\
  storage (snd (revokeAccess e g w)) =
    withAccessPermissions (storage w)
      (JSMap.delete g (accessPermissions (storage w)))
      (currentAccessId (storage w)) /\
  files (snd (revokeAccess e g w)) = files w.
Proof.
  run. set (w1 := withStorage w _).
  destruct (JSMap.has g _); simpl; [|auto].
  destruct (saveData_storage e w1) as [Hs Hf]. destruct (saveData e w1).
  simpl in *. rewrite Hs, Hf. auto.
Qed.

Lemma createUser_result e u w :
  let user := User.mk (currentUserId (storage w)) (iu_address u) (iu_role u)
                (now e) in
  fst (createUser e u w) = user /\
  storage (snd (createUser e u w)) =
    withUsers (storage w)
      (JSMap.set (currentUserId (storage w)) user (users (storage w)))
      (currentUserId (storage w) + 1).
Proof.
  run. match goal with |- context [saveData e ?x] =>
    destruct (saveData_storage e x) as [Hs Hf]; destruct (saveData e x) end.
  simpl in *. rewrite Hs. auto.
Qed.

Lemma hasAccess_true_iff D P i w :
  fst (hasAccess D P i w) = true <->
  exists a, In a (JSMap.values (accessPermissions (storage w))) /\
            grantCovers D P i a.
Proof.
  run. rewrite existsb_exists. unfold grantCovers. split.
  - intros (a & Hin & Hc). apply filter_In in Hin as [Hin Hd].
    apply andb_true_iff in Hc as [Hp Hi].
    exists a. rewrite <- !sameAddress_true, <- includes_In. auto.
  - intros (a & Hin & Hd & Hp & Hi). exists a.
    rewrite filter_In, andb_true_iff, !sameAddress_true, includes_In. auto.
Qed.

Lemma hasAccess_pure D P i w : snd (hasAccess D P i w) = w.
Proof. reflexivity. Qed.

Lemma postAccess_201 e session b w :
  status (fst (postAccess e session b w)) = 201 ->
  exists a, insertAccessSchema b = Some a /\
            snd (postAccess e session b w) = snd (createAccess e a w).
Proof.
  unfold postAccess, authenticate, respond, ret.
  destruct session as [user|]; [|simpl; discriminate].
  destruct (sessionRole user); [|simpl; discriminate].
  destruct (negb _); [simpl; discriminate|].
  destruct (insertAccessSchema b) as [a|]; [|simpl; discriminate].
  unfold bind, getMedicalRecordsByPatient, gets, respond, ret. simpl.
  destruct (0 <? _); [simpl; discriminate|].
  intros _. exists a. split; [reflexivity|].
  now destruct (createAccess e a w).
Qed.

(** ** Access decisions *)

(** C1, as amended.  The access test is true exactly when some stored
    grant for the pair (doctor, patient), compared without letter case,
    holds the record id.  It is true right after a successful grant request
    whose id list holds the id.  Right after revoking the grant stored under
    [g] it is true exactly when a grant stored under another id covers the
    same triple; so it is false when no other grant does. *)
Theorem hasAccess_iff_grant (w : World) (D P : string) (i : Z) :
  (fst (hasAccess D P i w) = true <->
   exists a, In a (JSMap.values (accessPermissions (storage w))) /\
             grantCovers D P i a) /\
  (forall e session b,
     status (fst (postAccess e session b w)) = 201 ->
     In i (ab_recordIds b) ->
     fst (hasAccess (ab_doctorAddress b) (ab_patientAddress b) i
            (snd (postAccess e session b w))) = true) /\
  (forall e g,
     fst (hasAccess D P i (snd (revokeAccess e g w))) = true <->
     exists g' a, g' <> g /\
                  In (g', a) (JSMap.entries (accessPermissions (storage w))) /\
                  grantCovers D P i a).
Proof.
  split; [apply hasAccess_true_iff|]. split.
  - intros e session b H201 Hi.
    destruct (postAccess_201 _ _ _ _ H201) as (a & Ha & ->).
    apply hasAccess_true_iff.
    destruct (createAccess_result e a w) as (_ & -> & _). simpl.
    eexists. split; [apply JSMapFacts.In_values_set|].
    revert Ha. unfold insertAccessSchema.
    destruct (parseDuration _); [|discriminate]. intros [= <-].
    repeat split; simpl; auto.
  - intros e g. rewrite hasAccess_true_iff.
    destruct (revokeAccess_result e g w) as (_ & -> & _). simpl. split.
    + intros (a & Hin & Hc). unfold JSMap.values in Hin.
      apply in_map_iff in Hin as ([g' a'] & <- & Hin).
      apply JSMapFacts.In_delete in Hin as [Hin Hne].
      exists g', a'. auto.
    + intros (g' & a & Hne & Hin & Hc). exists a. split; [|assumption].
      apply (in_map snd _ (g', a)). apply JSMapFacts.In_delete. auto.
Qed.

Lemma hasAccess_iff_grant_witness :
  fst (hasAccess Example.drBob Example.alice 1
         (snd (postAccess Example.env Example.aliceSession Example.grantLabA
                 Example.uploaded))) = true /\
  fst (hasAccess Example.drBob Example.alice 1
         (snd (revokeAccess Example.env 1 Example.granted))) <> true.
Proof.
  split.
  - apply (proj1 (proj2 (hasAccess_iff_grant Example.uploaded
                           Example.drBob Example.alice 1))
             Example.env Example.aliceSession Example.grantLabA).
    + reflexivity.
    + simpl. left. reflexivity.
  - intros H.
    apply (proj2 (proj2 (hasAccess_iff_grant Example.granted
                           Example.drBob Example.alice 1))
             Example.env 1) in H.
    destruct H as (g' & a & Hne & Hin & _).
    destruct Hin as [Hin | []]. injection Hin as <- _. now apply Hne.
Defined.

(** C1 as stated fails: Alice grants Dr Bob record 1 twice (grants 1 and
    2); the second request succeeds and returns grant 2, revoking grant 2
    succeeds, and Dr Bob still has access to record 1 through grant 1. *)
Lemma hasAccess_true_after_revoke :
  fst (postAccess Example.env Example.aliceSession Example.grantLabA
         Example.granted)
  = {| status := 201;
       body := AccessJson (Access.mk 2 Example.alice Example.drBob [1]
                             sevenDays (now Example.env)) |} /\
  fst (revokeAccess Example.env 2 Example.grantedTwice) = true /\
  fst (hasAccess Example.drBob Example.alice 1
         (snd (revokeAccess Example.env 2 Example.grantedTwice))) = true.
Proof. repeat split. Qed.

(** C2.  The access test does not look at a grant's duration or creation
    time: replacing them in every stored grant, by any rule, leaves every
    decision as it was.  (The test takes no clock either.) *)
Theorem hasAccess_ignores_expiry (f : Access.t -> Duration * Z) (w : World)
  (D P : string) (i : Z) :
  fst (hasAccess D P i (retimeAll f w)) = fst (hasAccess D P i w).
Proof.
  run. unfold JSMap.values.
  induction (accessPermissions (storage w)) as [|[k a] m IH]; simpl;
    [reflexivity|].
  destruct (sameAddress (Access.doctorAddress a) D); simpl; now rewrite IH.
Qed.

(** ** Deleting a record *)

Lemma deleteMedicalRecord_unknown e i w :
  JSMap.get i (medicalRecords (storage w)) = None ->
  deleteMedicalRecord e i w = (false, w).
Proof. intros H. run. now rewrite H. Qed.

Lemma deleteMedicalRecord_found e i R w :
  JSMap.get i (medicalRecords (storage w)) = Some R ->
  fst (deleteMedicalRecord e i w) = true /\
  storage (snd (deleteMedicalRecord e i w)) =
    withMedicalRecords
      (withAccessPermissions (storage w)
         (dropRecordFromAll i (accessPermissions (storage w)))
         (currentAccessId (storage w)))
      (JSMap.delete i (medicalRecords (storage w)))
      (currentRecordId (storage w)).
Proof.
  intros H. run. rewrite H.
  destruct (removeFile_storage e (MedicalRecord.filePath R) w) as [Hs _].
  destruct (removeFile e (MedicalRecord.filePath R) w) as [[] w1].
  simpl in Hs. rewrite Hs.
  assert (Hh : JSMap.has i (medicalRecords (storage w)) = true).
  { apply JSMapFacts.has_get. congruence. }
  rewrite Hh. set (w2 := withStorage (withStorage w1 _) _).
  destruct (saveData_storage e w2) as [Hs2 _]. destruct (saveData e w2).
  simpl in *. rewrite Hs2. auto.
Qed.

Lemma stored_under_own_id {V} (idOf : V -> Z) (m : JSMap.t V) next (v : V) :
  wellKeyed idOf m next = true -> In v (JSMap.values m) ->
  JSMap.get (idOf v) m = Some v.
Proof.
  intros Hw Hin. unfold JSMap.values in Hin.
  apply in_map_iff in Hin as ([k v'] & <- & Hin). simpl.
  rewrite (wellKeyed_In _ _ _ _ _ Hw Hin).
  apply JSMapFacts.In_get; [|assumption]. eapply wellKeyed_NoDup; eassumption.
Qed.

Lemma filter_neq_id id ids :
  includes id ids = false -> filter (fun r => negb (r =? id)) ids = ids.
Proof.
  intros H. induction ids as [|x ids IH]; simpl in *; [reflexivity|].
  apply orb_false_iff in H as [H1 H2]. rewrite Z.eqb_sym, H1. simpl.
  now rewrite IH.
Qed.

(** C3.  In a well-formed store, deleting a stored record [R] by its id
    returns true; afterwards the record is absent, the other records are
    as before, no grant holds [R]'s id, a grant that held nothing but
    [R]'s id is absent, a grant that still holds other ids is stored under
    its id with only [R]'s id removed, and no grant has appeared.  Deleting
    an id under which no record is stored returns false and changes
    nothing. *)
Theorem deleteMedicalRecord_cascade (e : Env) (w : World) :
  wfStorage (storage w) ->
  (forall R, In R (JSMap.values (medicalRecords (storage w))) ->
     let id := MedicalRecord.id R in
     let before := accessPermissions (storage w) in
     let after := storage (snd (deleteMedicalRecord e id w)) in
     let others := filter (fun r => negb (r =? id)) in
     fst (deleteMedicalRecord e id w) = true /\
     JSMap.get id (medicalRecords after) = None /\
     (forall k, k <> id ->
        JSMap.get k (medicalRecords after)
        = JSMap.get k (medicalRecords (storage w))) /\
     (forall a, In a (JSMap.values (accessPermissions after)) ->
        ~ In id (Access.recordIds a)) /\
     (forall g a, JSMap.get g before = Some a ->
        In id (Access.recordIds a) -> others (Access.recordIds a) = [] ->
        JSMap.get g (accessPermissions after) = None) /\
     (forall g a, JSMap.get g before = Some a ->
        others (Access.recordIds a) <> [] ->
        JSMap.get g (accessPermissions after)
        = Some (Access.withRecordIds a (others (Access.recordIds a)))) /\
     (forall g, JSMap.get g before = None ->
        JSMap.get g (accessPermissions after) = None)) /\
  (forall i, JSMap.get i (medicalRecords (storage w)) = None ->
     deleteMedicalRecord e i w = (false, w)).
Proof.
  intros (Hu & Hr & Ha). split; [|intros i; apply deleteMedicalRecord_unknown].
  intros R HR id before after others.
  pose proof (stored_under_own_id _ _ _ _ Hr HR) as Hget.
  destruct (deleteMedicalRecord_found e _ _ _ Hget) as [Hok Hst].
  subst after. fold id in Hst, Hok. rewrite Hst. simpl.
  pose proof (wellKeyed_NoDup _ _ _ Ha) as Hnd.
  rewrite (dropRecordFromAll_flat_map id _ Hnd).
  split; [assumption|]. split; [apply JSMapFacts.get_delete_same|].
  split; [intros k Hk; now apply JSMapFacts.get_delete_other|].
  split.
  { intros a Hin. unfold JSMap.values in Hin.
    apply in_map_iff in Hin as ([g a'] & <- & Hin).
    eapply In_shrunk; eassumption. }
  split.
  { intros g a Hg Hin Hempty. rewrite (get_shrunk id _ g Hnd).
    fold before. rewrite Hg. apply includes_In in Hin. rewrite Hin.
    unfold others in Hempty. now rewrite Hempty. }
  split.
  { intros g a Hg Hne. rewrite (get_shrunk id _ g Hnd).
    fold before. rewrite Hg. unfold others in *.
    destruct (includes id (Access.recordIds a)) eqn:I.
    - destruct (filter _ (Access.recordIds a)); [congruence | reflexivity].
    - rewrite (filter_neq_id _ _ I). now destruct a. }
  intros g Hg. rewrite (get_shrunk id _ g Hnd). fold before. now rewrite Hg.
Qed.

Lemma deleteMedicalRecord_cascade_witness :
  let after :=
    storage (snd (deleteMedicalRecord Example.env 1 Example.sharedBoth)) in
  fst (deleteMedicalRecord Example.env 1 Example.sharedBoth) = true /\
  JSMap.get 1 (medicalRecords after) = None /\
  JSMap.get 1 (accessPermissions after) = None /\
  JSMap.get 2 (accessPermissions after)
  = Some (Access.mk 2 Example.aliceLower Example.drBob [2] thirtyDays
            (now Example.env)).
Proof.
  assert (W : wfStorage (storage Example.sharedBoth)) by (repeat split).
  assert (I : In Example.labARecord
                (JSMap.values (medicalRecords (storage Example.sharedBoth))))
    by (left; reflexivity).
  destruct (deleteMedicalRecord_cascade Example.env Example.sharedBoth W)
    as [H _].
  destruct (H Example.labARecord I) as (H1 & H2 & _ & _ & H5 & H6 & _).
  split; [exact H1|]. split; [exact H2|]. split.
  - apply (H5 1 (Access.mk 1 Example.alice Example.drBob [1] sevenDays
                   (now Example.env))).
    + reflexivity.
    + left; reflexivity.
    + reflexivity.
  - apply (H6 2 (Access.mk 2 Example.aliceLower Example.drBob [1; 2]
                   thirtyDays (now Example.env))).
    + reflexivity.
    + discriminate.
Defined.

(** ** Grants without records *)

Lemma In_values_set_inv {V} k (v v' : V) (m : JSMap.t V) :
  In v' (JSMap.values (JSMap.set k v m)) -> v' = v \/ In v' (JSMap.values m).
Proof.
  induction m as [|[k0 v0] m IH]; simpl.
  - intros [<- | []]. now left.
  - destruct (k =? k0); simpl.
    + intros [<- | H]; [now left | right; now right].
    + intros [<- | H]; [right; now left|].
      destruct (IH H); [now left | right; now right].
Qed.

(** The deletion and revocation paths keep the invariant, and so does
    the creation of a grant that holds some id. *)
Lemma noEmptyGrant_deleteMedicalRecord e id w :
  wfStorage (storage w) -> noEmptyGrant (storage w) ->
  noEmptyGrant (storage (snd (deleteMedicalRecord e id w))).
Proof.
  intros (_ & _ & Ha) Hinv.
  destruct (JSMap.get id (medicalRecords (storage w))) as [R|] eqn:G.
  - destruct (deleteMedicalRecord_found e id R w G) as [_ ->].
    unfold noEmptyGrant. simpl.
    rewrite dropRecordFromAll_flat_map by (eapply wellKeyed_NoDup; eauto).
    intros a Hin. unfold JSMap.values in Hin.
    apply in_map_iff in Hin as ([g a'] & <- & Hin).
    apply in_flat_map in Hin as ([g0 a0] & Hin0 & Hs). simpl.
    unfold shrunk in Hs. destruct (includes id (Access.recordIds a0)).
    + cbv zeta in Hs.
      destruct (Z.of_nat _ =? 0) eqn:Z0; simpl in Hs; [tauto|].
      destruct Hs as [Hs|[]]. injection Hs as <- <-. simpl.
      intros E. rewrite E in Z0. discriminate.
    + destruct Hs as [Hs|[]]. injection Hs as <- <-.
      apply Hinv. now apply (in_map snd _ (g0, a0)).
  - now rewrite (deleteMedicalRecord_unknown e id w G).
Qed.

Lemma noEmptyGrant_revokeAccess e g w :
  noEmptyGrant (storage w) -> noEmptyGrant (storage (snd (revokeAccess e g w))).
Proof.
  intros Hinv. destruct (revokeAccess_result e g w) as (_ & -> & _).
  unfold noEmptyGrant. simpl. intros a Hin. unfold JSMap.values in Hin.
  apply in_map_iff in Hin as ([g' a'] & <- & Hin).
  apply JSMapFacts.In_delete in Hin as [Hin _].
  apply Hinv. now apply (in_map snd _ (g', a')).
Qed.

Lemma noEmptyGrant_createAccess e a w :
  ia_recordIds a <> [] -> noEmptyGrant (storage w) ->
  noEmptyGrant (storage (snd (createAccess e a w))).
Proof.
  intros Hne Hinv. destruct (createAccess_result e a w) as (_ & -> & _).
  unfold noEmptyGrant. simpl. intros a' Hin.
  apply In_values_set_inv in Hin as [-> | Hin]; [exact Hne | now apply Hinv].
Qed.

(** C4 fails on the code.  On a first start, a patient's request to grant
    access with an empty id list is answered 201, and the store then holds a
    grant whose [recordIds] is empty, in a state of a run. *)
Theorem postAccess_stores_empty_grant :
  let r := postAccess Example.env Example.aliceSession Example.grantNothing
             Example.fresh in
  status (fst r) = 201 /\
  reachable (snd r) /\
  exists a, In a (JSMap.values (accessPermissions (storage (snd r)))) /\
            Access.recordIds a = [].
Proof.
  split; [reflexivity|]. split.
  - eapply reachable_step; [apply reachable_start | apply step_postAccess].
  - eexists. split; [left; reflexivity | reflexivity].
Qed.

(** ** Granting access *)

Lemma parseDuration_name d : parseDuration (durationName d) = Some d.
Proof. destruct d; reflexivity. Qed.

Lemma parseRole_name r : parseRole (roleName r) = Some r.
Proof. destruct r; reflexivity. Qed.

Lemma no_invalid_records owned ids :
  (0 <? Z.of_nat (List.length
                    (filter (fun id => negb (includes id owned)) ids))) = false
  <-> forall i, In i ids -> In i owned.
Proof.
  induction ids as [|x ids IH]; simpl.
  - split; [tauto | reflexivity].
  - destruct (includes x owned) eqn:I; simpl.
    + rewrite IH. apply includes_In in I. split.
      * intros H i [<- | Hi]; auto.
      * intros H i Hi. auto.
    + split.
      * rewrite Z.ltb_ge. lia.
      * intros H. assert (In x owned) by auto.
        apply includes_In in H0. congruence.
Qed.

Lemma postAccess_patient e user b a w :
  sessionRole user = patient ->
  sameAddress (sessionAddress user) (ab_patientAddress b) = true ->
  insertAccessSchema b = Some a ->
  postAccess e (Some user) b w =
  let owned :=
    map MedicalRecord.id
        (fst (getMedicalRecordsByPatient (ab_patientAddress b) w)) in
  let invalidRecords :=
    filter (fun id => negb (includes id owned)) (ab_recordIds b) in
  if 0 <? Z.of_nat (List.length invalidRecords)
  then ({| status := 400;
           body := InvalidRecords "Some records don't belong to you"
                     invalidRecords |}, w)
  else ({| status := 201; body := AccessJson (fst (createAccess e a w)) |},
        snd (createAccess e a w)).
Proof.
  intros Hrole Hsame Hparse. unfold postAccess, authenticate.
  rewrite Hrole, Hsame, Hparse. cbn [negb].
  unfold bind, getMedicalRecordsByPatient, gets, respond, ret. cbn [fst snd].
  cbv zeta. destruct (0 <? _); [reflexivity|].
  now destruct (createAccess e a w).
Qed.

(** C5.  A patient whose session address is [P] up to letter case asks
    to grant access to [ids].  Ownership is what [getMedicalRecordsByPatient]
    lists for [P].  If some id is not owned the answer is 400 and nothing
    changes.  If every id is owned the answer is 201 with the new grant,
    which is stored under the next id; in a well-formed store that id was
    free and the earlier grants are as before. *)
Theorem postAccess_checks_ownership (e : Env) (user : SessionUser)
  (P D : string) (ids : list Z) (dur : Duration) (w : World) :
  sessionRole user = patient ->
  sameAddress (sessionAddress user) P = true ->
  let b := {| ab_doctorAddress := D; ab_recordIds := ids;
              ab_accessDuration := durationName dur;
              ab_patientAddress := P |} in
  let owned := map MedicalRecord.id (fst (getMedicalRecordsByPatient P w)) in
  let next := currentAccessId (storage w) in
  let grant := Access.mk next P D ids dur (now e) in
  let after := storage (snd (postAccess e (Some user) b w)) in
  ((exists i, In i ids /\ ~ In i owned) ->
     status (fst (postAccess e (Some user) b w)) = 400 /\
     snd (postAccess e (Some user) b w) = w) /\
  ((forall i, In i ids -> In i owned) ->
     fst (postAccess e (Some user) b w)
     = {| status := 201; body := AccessJson grant |} /\
     accessPermissions after
     = JSMap.set next grant (accessPermissions (storage w)) /\
     JSMap.get next (accessPermissions after) = Some grant /\
     (wfStorage (storage w) ->
      JSMap.get next (accessPermissions (storage w)) = None /\
      accessPermissions after = accessPermissions (storage w) ++ [(next, grant)])).
Proof.
  intros Hrole Hsame b owned next grant after.
  set (a := {| ia_patientAddress := P; ia_doctorAddress := D;
               ia_recordIds := ids; ia_duration := dur |}).
  assert (Hparse : insertAccessSchema b = Some a).
  { unfold insertAccessSchema, b. simpl. now rewrite parseDuration_name. }
  subst after. rewrite (postAccess_patient e user b a w Hrole Hsame Hparse).
  cbv zeta. change (ab_patientAddress b) with P.
  change (ab_recordIds b) with ids. fold owned.
  pose proof (no_invalid_records owned ids) as Hinv.
  destruct (0 <? _).
  - split.
    + intros _. split; reflexivity.
    + intros Hall. apply Hinv in Hall. discriminate.
  - split.
    + intros (i & Hi & Hn). exfalso. apply Hn. apply (proj1 Hinv); auto.
    + intros _. destruct (createAccess_result e a w) as (Hf & Hs & _).
      cbn [fst snd]. rewrite Hs, Hf. simpl. fold next. fold grant.
      split; [reflexivity|]. split; [reflexivity|].
      split; [apply JSMapFacts.get_set_same|].
      intros (_ & _ & Ha). unfold wellKeyed in Ha.
      apply andb_true_iff in Ha as [Ha _].
      pose proof (ascending_get_None _ _ _ Ha) as Hnone. fold next in Hnone.
      split; [assumption | now apply JSMapFacts.set_fresh].
Qed.

Lemma postAccess_checks_ownership_witness :
  status (fst (postAccess Example.env Example.aliceSession
                 {| ab_doctorAddress := Example.drBob; ab_recordIds := [1; 7];
                    ab_accessDuration := durationName permanent;
                    ab_patientAddress := Example.aliceLower |}
                 Example.uploaded)) = 400 /\
  fst (postAccess Example.env Example.aliceSession
         {| ab_doctorAddress := Example.drBob; ab_recordIds := [2; 1];
            ab_accessDuration := durationName permanent;
            ab_patientAddress := Example.aliceLower |}
         Example.uploaded)
  = {| status := 201;
       body := AccessJson (Access.mk 1 Example.aliceLower Example.drBob [2; 1]
                             permanent (now Example.env)) |}.
Proof.
  split.
  - apply (proj1 (postAccess_checks_ownership Example.env
                    {| sessionAddress := Example.alice; sessionRole := patient |}
                    Example.aliceLower Example.drBob [1; 7] permanent
                    Example.uploaded eq_refl eq_refl)).
    exists 7. split; [right; left; reflexivity|].
    simpl. intros [H | [H | []]]; discriminate.
  - apply (proj2 (postAccess_checks_ownership Example.env
                    {| sessionAddress := Example.alice; sessionRole := patient |}
                    Example.aliceLower Example.drBob [2; 1] permanent
                    Example.uploaded eq_refl eq_refl)).
    simpl. intros i [<- | [<- | []]]; auto.
Defined.

(** ** What a doctor can list *)

Lemma In_distinct x seen xs :
  In x (distinct seen xs) <-> In x xs /\ ~ In x seen.
Proof.
  revert seen. induction xs as [|y xs IH]; intros seen; simpl; [tauto|].
  destruct (existsb (String.eqb y) seen) eqn:E.
  - apply existsb_exists in E as (z & Hz & Heq). apply String.eqb_eq in Heq.
    subst z. rewrite IH. split; [tauto|].
    intros [[<- | H] Hn]; tauto.
  - assert (Hy : ~ In y seen).
    { intros H. assert (existsb (String.eqb y) seen = true); [|congruence].
      apply existsb_exists. exists y. split; [assumption | apply String.eqb_refl]. }
    simpl. rewrite IH. simpl. split.
    + intros [<- | [H Hn]]; [tauto|]. split; [tauto|]. intros H'. apply Hn. tauto.
    + intros [[<- | H] Hn]; [tauto|].
      destruct (string_dec y x) as [-> | Hne]; [tauto|]. right.
      split; [assumption|]. intros [H' | H']; tauto.
Qed.

Lemma collectRecords_flat_map ps acc w :
  collectRecords ps acc w =
  (acc ++ flat_map (fun p => fst (getMedicalRecordsByPatient p w)) ps, w).
Proof.
  revert acc. induction ps as [|p ps IH]; intros acc; simpl.
  - unfold ret. now rewrite app_nil_r.
  - unfold bind. unfold getMedicalRecordsByPatient at 1. unfold gets at 1.
    rewrite IH. now rewrite <- app_assoc.
Qed.

(** C6.  For a doctor address [D] the operation changes nothing and
    returns (1) the stored grants whose doctor address is [D] up to letter
    case, in stored order, and (2) for each distinct patient address of
    those grants, in order of first appearance, all stored records of that
    patient.  A record is returned exactly when its patient is the patient
    of one of the returned grants, whatever the grants' record ids,
    durations and creation times. *)
Theorem getAccessibleRecordsByDoctor_spec (D : string) (w : World) :
  let grants := JSMap.values (accessPermissions (storage w)) in
  let stored := JSMap.values (medicalRecords (storage w)) in
  let accessList := fst (fst (getAccessibleRecordsByDoctor D w)) in
  let records := snd (fst (getAccessibleRecordsByDoctor D w)) in
  snd (getAccessibleRecordsByDoctor D w) = w /\
  accessList = filter (fun a => sameAddress (Access.doctorAddress a) D) grants /\
  (forall a, In a accessList <->
     In a grants /\ toLowerCase (Access.doctorAddress a) = toLowerCase D) /\
  records =
    flat_map (fun p => filter (fun r => sameAddress
                                          (MedicalRecord.patientAddress r) p)
                              stored)
             (distinct [] (map Access.patientAddress accessList)) /\
  (forall r, In r records <->
     In r stored /\
     exists a, In a accessList /\
       toLowerCase (MedicalRecord.patientAddress r)
       = toLowerCase (Access.patientAddress a)).
Proof.
  intros grants stored accessList records.
  assert (E : getAccessibleRecordsByDoctor D w =
    (filter (fun a => sameAddress (Access.doctorAddress a) D) grants,
     flat_map (fun p => filter (fun r => sameAddress
                                  (MedicalRecord.patientAddress r) p) stored)
       (distinct [] (map Access.patientAddress
          (filter (fun a => sameAddress (Access.doctorAddress a) D) grants))),
     w)).
  { unfold getAccessibleRecordsByDoctor, bind.
    unfold getAccessByDoctor at 1. unfold gets at 1.
    rewrite collectRecords_flat_map. reflexivity. }
  subst accessList records. rewrite E. cbn [fst snd].
  split; [reflexivity|]. split; [reflexivity|]. split.
  { intros a. rewrite filter_In, sameAddress_true. reflexivity. }
  split; [reflexivity|].
  intros r. rewrite in_flat_map. split.
  - intros (p & Hp & Hr). apply In_distinct in Hp as [Hp _].
    apply in_map_iff in Hp as (a & <- & Ha).
    apply filter_In in Hr as [Hr Hs]. apply sameAddress_true in Hs.
    split; [assumption|]. exists a. auto.
  - intros (Hr & a & Ha & Hs). exists (Access.patientAddress a). split.
    + apply In_distinct. split; [now apply in_map | tauto].
    + apply filter_In. split; [assumption | now apply sameAddress_true].
Qed.

(** ** Registration *)

Lemma find_exists {A} (f : A -> bool) (l : list A) x :
  In x l -> f x = true -> exists y, find f l = Some y.
Proof.
  induction l as [|z l IH]; simpl; [tauto|].
  intros [<- | Hin] Hf.
  - rewrite Hf. eauto.
  - destruct (f z); eauto.
Qed.

Lemma postUsers_201 e b w :
  status (fst (postUsers e b w)) = 201 ->
  exists u, insertUserSchema b = Some u /\
            snd (postUsers e b w) = snd (createUser e u w).
Proof.
  unfold postUsers, respond, ret.
  destruct (insertUserSchema b) as [u|]; [|simpl; discriminate].
  unfold bind, getUserByAddress, gets. simpl.
  destruct (find _ _); [simpl; discriminate|]. intros _. exists u.
  split; [reflexivity|]. now destruct (createUser e u w).
Qed.

(** C7.  After a registration of address [A] was answered 201, a
    registration of any address [A'] equal to [A] up to letter case, with
    any role, is answered 409 and leaves the whole state, the users among
    it, as it was. *)
Theorem postUsers_conflict (e e' : Env) (A A' : string) (r r' : Role)
  (w : World) :
  let first := postUsers e {| ub_address := A; ub_role := roleName r |} w in
  status (fst first) = 201 ->
  toLowerCase A' = toLowerCase A ->
  postUsers e' {| ub_address := A'; ub_role := roleName r' |} (snd first)
  = ({| status := 409; body := Message "User already exists" |}, snd first).
Proof.
  intros first H201 Hcase. subst first.
  destruct (postUsers_201 _ _ _ H201) as (u & Hu & ->).
  revert Hu. unfold insertUserSchema. simpl. rewrite parseRole_name.
  intros [= <-].
  unfold postUsers, insertUserSchema. simpl. rewrite parseRole_name.
  unfold bind at 1. unfold getUserByAddress, gets. simpl.
  match goal with |- context [createUser e ?u w] =>
    destruct (createUser_result e u w) as (_ & Hs) end.
  rewrite Hs. simpl.
  match goal with |- context [find ?f ?l] =>
    destruct (find_exists f l
                (User.mk (currentUserId (storage w)) A r (now e)))
      as [y ->] end.
  - apply JSMapFacts.In_values_set.
  - simpl. apply sameAddress_true. now symmetry.
  - reflexivity.
Qed.

Lemma postUsers_conflict_witness :
  postUsers Example.env
    {| ub_address := Example.aliceLower; ub_role := roleName doctor |}
    (snd (postUsers Example.env
            {| ub_address := Example.alice; ub_role := roleName patient |}
            Example.fresh))
  = ({| status := 409; body := Message "User already exists" |},
     snd (postUsers Example.env
            {| ub_address := Example.alice; ub_role := roleName patient |}
            Example.fresh)).
Proof.
  apply (postUsers_conflict Example.env Example.env Example.alice
           Example.aliceLower patient doctor Example.fresh).
  - reflexivity.
  - reflexivity.
Defined.

Lemma getAccessibleRecordsByDoctor_spec_witness :
  map Access.id
    (fst (fst (getAccessibleRecordsByDoctor Example.drBob Example.sharedBoth)))
  = [1; 2] /\
  map MedicalRecord.id
    (snd (fst (getAccessibleRecordsByDoctor Example.drBob Example.sharedBoth)))
  = [1; 2; 1; 2].
Proof.
  destruct (getAccessibleRecordsByDoctor_spec Example.drBob Example.sharedBoth)
    as (_ & -> & _ & -> & _).
  split; reflexivity.
Defined.

(** ** Saving and loading *)

(** C8.  In a well-formed store (as every state of a run is), a
    successful save followed by the start-up load gives back the same users,
    records and grants, entry for entry, and sets each id counter to the
    largest stored id plus one, or to 1 for an empty collection; with no data
    file the load gives the empty stores with all counters at 1. *)
Theorem save_then_load (e : Env) (w : World) :
  wfStorage (storage w) ->
  writeSucceeds e = true ->
  let s := storage w in
  let s' := storage (snd (constructor (snd (saveData e w)))) in
  (users s' = users s /\
   medicalRecords s' = medicalRecords s /\
   accessPermissions s' = accessPermissions s) /\
  (currentUserId s' = specNextId (users s) /\
   currentRecordId s' = specNextId (medicalRecords s) /\
   currentAccessId s' = specNextId (accessPermissions s)) /\
  (forall w0, dataFile w0 = None ->
     storage (snd (constructor w0)) = emptyStorage /\
     currentUserId emptyStorage = 1 /\ currentRecordId emptyStorage = 1 /\
     currentAccessId emptyStorage = 1).
Proof.
  intros (Hu & Hr & Ha) Hw s s'. subst s' s.
  unfold constructor, loadData, saveData, bind, modifyStorage. rewrite Hw.
  simpl. unfold loadAccessPermissions, loadMedicalRecords, loadUsers. simpl.
  destruct (wellKeyed_reload _ _ _ Hu) as [Eu _].
  destruct (wellKeyed_reload _ _ _ Hr) as [Er _].
  destruct (wellKeyed_reload _ _ _ Ha) as [Ea _].
  rewrite Eu, Er, Ea.
  unfold wellKeyed in Hu, Hr, Ha.
  apply andb_true_iff in Hu as [Hu _]. apply andb_true_iff in Hr as [Hr _].
  apply andb_true_iff in Ha as [Ha _].
  split; [auto|]. split.
  - rewrite (specNextId_maxKey _ _ Hu), (specNextId_maxKey _ _ Hr),
      (specNextId_maxKey _ _ Ha). auto.
  - intros w0 H0. rewrite H0. simpl. auto.
Qed.

Lemma save_then_load_witness :
  let s := storage Example.sharedBoth in
  let s' := storage (snd (constructor (snd (saveData Example.env
                                              Example.sharedBoth)))) in
  accessPermissions s' = accessPermissions s /\ currentAccessId s' = 3.
Proof.
  destruct (save_then_load Example.env Example.sharedBoth)
    as ((_ & _ & Ha) & (_ & _ & Hc) & _).
  - repeat split.
  - reflexivity.
  - split; [exact Ha | exact Hc].
Defined.

(** ** Routes for a doctor *)

(** C9.  A doctor [D] asks for the records of patient address [P] (a
    non-empty query parameter).  If some stored grant names [D] as doctor
    and [P] as patient, both up to letter case, the answer is 200 with every
    stored record of [P], whatever the grant's record ids, duration and
    creation time; the state is unchanged. *)
Theorem getRecords_doctor_lists_all (D P : string) (w : World) :
  P <> "" ->
  (exists a, In a (JSMap.values (accessPermissions (storage w))) /\
             toLowerCase (Access.doctorAddress a) = toLowerCase D /\
             toLowerCase (Access.patientAddress a) = toLowerCase P) ->
  getRecords (Some {| sessionAddress := D; sessionRole := doctor |}) (Some P) w
  = ({| status := 200;
        body := RecordsJson
                  (filter (fun r => sameAddress (MedicalRecord.patientAddress r) P)
                          (JSMap.values (medicalRecords (storage w)))) |}, w).
Proof.
  intros HP (a & Hin & Hd & Hp). run.
  destruct (String.eqb_spec P ""); [contradiction|].
  match goal with |- context [existsb ?f ?l] =>
    assert (E : existsb f l = true) end.
  { apply existsb_exists. exists a. split.
    - apply filter_In. split; [assumption | now apply sameAddress_true].
    - now apply sameAddress_true. }
  rewrite E. reflexivity.
Qed.

Lemma getRecords_doctor_lists_all_witness :
  getRecords Example.bobSession (Some Example.alice) Example.granted
  = ({| status := 200;
        body := RecordsJson
                  (filter (fun r => sameAddress (MedicalRecord.patientAddress r)
                                      Example.alice)
                          (JSMap.values
                             (medicalRecords (storage Example.granted)))) |},
     Example.granted).
Proof.
  apply (getRecords_doctor_lists_all Example.drBob Example.alice Example.granted).
  - discriminate.
  - exists (Access.mk 1 Example.alice Example.drBob [1] sevenDays
              (now Example.env)).
    split; [left; reflexivity | split; reflexivity].
Defined.

Lemma removeFile_files e path w :
  files (snd (removeFile e path w))
  = if (negb (String.eqb path "") && existsb (String.eqb path) (files w)
        && unlinkSucceeds e)%bool
    then filter (fun p => negb (String.eqb p path)) (files w)
    else files w.
Proof.
  unfold removeFile, existsSync, tryUnlink, bind, ret. simpl.
  destruct (_ && _)%bool; simpl; [|reflexivity].
  now destruct (unlinkSucceeds e).
Qed.

Lemma deleteMedicalRecord_files e i R w :
  JSMap.get i (medicalRecords (storage w)) = Some R ->
  files (snd (deleteMedicalRecord e i w))
  = files (snd (removeFile e (MedicalRecord.filePath R) w)).
Proof.
  intros H. run. rewrite H.
  destruct (removeFile_storage e (MedicalRecord.filePath R) w) as [Hs _].
  destruct (removeFile e (MedicalRecord.filePath R) w) as [[] w1].
  simpl in Hs. rewrite Hs.
  assert (Hh : JSMap.has i (medicalRecords (storage w)) = true).
  { apply JSMapFacts.has_get. congruence. }
  rewrite Hh. set (w2 := withStorage (withStorage w1 _) _).
  destruct (saveData_storage e w2) as [_ Hf2]. destruct (saveData e w2).
  simpl in *. now rewrite Hf2.
Qed.

(** C10.  A doctor [D] asks to delete the record stored under [id].  If
    some stored grant for [D] and the record's patient holds the record's
    id, the request is answered exactly as the same request made by the
    owning patient, with the same resulting state: 200, and the state that
    [deleteMedicalRecord] leaves.  In that state the record is removed (no
    record is stored under [id], every other id answers as before); the
    record's file is removed if it can be (its path is non-empty and on disk
    and the removal goes through) and the files are as before otherwise; and
    the grants that held [id] are shrunk or deleted: no stored grant holds
    [id], a grant that held nothing else is absent, a grant that holds other
    ids is stored under its id with only [id] removed, and no grant has
    appeared (a map holding each grant id once, as a [Map] does). *)
Theorem deleteRecord_doctor_as_owner (e : Env) (D : string) (id : Z)
  (R : MedicalRecord.t) (w : World) :
  JSMap.get id (medicalRecords (storage w)) = Some R ->
  (exists a, In a (JSMap.values (accessPermissions (storage w))) /\
             grantCovers D (MedicalRecord.patientAddress R)
               (MedicalRecord.id R) a) ->
  let asDoctor :=
    deleteRecord e (Some {| sessionAddress := D; sessionRole := doctor |})
      (Some id) w in
  let asOwner :=
    deleteRecord e
      (Some {| sessionAddress := MedicalRecord.patientAddress R;
               sessionRole := patient |})
      (Some id) w in
  let before := accessPermissions (storage w) in
  let after := storage (snd asDoctor) in
  let path := MedicalRecord.filePath R in
  let others := filter (fun r => negb (r =? id)) in
  (asDoctor = asOwner /\
   asDoctor
   = ({| status := 200; body := Message "Record deleted successfully" |},
      snd (deleteMedicalRecord e id w)) /\
   fst (deleteMedicalRecord e id w) = true) /\
  (JSMap.get id (medicalRecords after) = None /\
   forall k, k <> id ->
     JSMap.get k (medicalRecords after)
     = JSMap.get k (medicalRecords (storage w))) /\
  files (snd asDoctor)
  = (if (negb (String.eqb path "") && existsb (String.eqb path) (files w)
         && unlinkSucceeds e)%bool
     then filter (fun p => negb (String.eqb p path)) (files w)
     else files w) /\
  (NoDup (JSMap.keys before) ->
   (forall a, In a (JSMap.values (accessPermissions after)) ->
      ~ In id (Access.recordIds a)) /\
   (forall g a, JSMap.get g before = Some a ->
      In id (Access.recordIds a) -> others (Access.recordIds a) = [] ->
      JSMap.get g (accessPermissions after) = None) /\
   (forall g a, JSMap.get g before = Some a ->
      others (Access.recordIds a) <> [] ->
      JSMap.get g (accessPermissions after)
      = Some (Access.withRecordIds a (others (Access.recordIds a)))) /\
   (forall g, JSMap.get g before = None ->
      JSMap.get g (accessPermissions after) = None)).
Proof.
  intros Hget Hgrant asDoctor asOwner before after path others.
  assert (Eq : asDoctor = asOwner /\
               asDoctor
               = ({| status := 200;
                     body := Message "Record deleted successfully" |},
                  snd (deleteMedicalRecord e id w)) /\
               fst (deleteMedicalRecord e id w) = true).
  { subst asDoctor asOwner. apply hasAccess_true_iff in Hgrant.
    destruct (deleteMedicalRecord_found e id R w Hget) as [Hok _].
    assert (Hself : sameAddress (MedicalRecord.patientAddress R)
                      (MedicalRecord.patientAddress R) = true)
      by now apply sameAddress_true.
    unfold hasAccess, bind, getAccessByDoctor, gets, ret in Hgrant.
    simpl in Hgrant.
    unfold deleteRecord, authenticate, bind, getMedicalRecord, hasAccess,
      getAccessByDoctor, gets, respond, ret.
    simpl. rewrite Hget, Hself, Hgrant. simpl.
    destruct (deleteMedicalRecord e id w) as [ok w']. simpl in Hok. subst ok.
    auto. }
  split; [exact Eq|]. destruct Eq as (_ & Eq & _).
  subst after. rewrite Eq. cbn [snd].
  destruct (deleteMedicalRecord_found e id R w Hget) as [_ Hst].
  rewrite Hst. cbn [medicalRecords accessPermissions withMedicalRecords
                    withAccessPermissions].
  split.
  { split; [apply JSMapFacts.get_delete_same|].
    intros k Hk. now apply JSMapFacts.get_delete_other. }
  split.
  { rewrite (deleteMedicalRecord_files e id R w Hget). apply removeFile_files. }
  intros Hnd. fold before. rewrite (dropRecordFromAll_flat_map id _ Hnd).
  split.
  { intros a Hin. unfold JSMap.values in Hin.
    apply in_map_iff in Hin as ([g a'] & <- & Hin).
    eapply In_shrunk; eassumption. }
  split.
  { intros g a Hg Hin Hempty. rewrite (get_shrunk id _ g Hnd), Hg.
    apply includes_In in Hin. rewrite Hin.
    unfold others in Hempty. now rewrite Hempty. }
  split.
  { intros g a Hg Hne. rewrite (get_shrunk id _ g Hnd), Hg. unfold others in *.
    destruct (includes id (Access.recordIds a)) eqn:I.
    - destruct (filter _ (Access.recordIds a)); [congruence | reflexivity].
    - rewrite (filter_neq_id _ _ I). now destruct a. }
  intros g Hg. now rewrite (get_shrunk id _ g Hnd), Hg.
Qed.

Lemma deleteRecord_doctor_as_owner_witness :
  let after :=
    snd (deleteRecord Example.env Example.bobSession (Some 1)
           Example.sharedBoth) in
  fst (getMedicalRecord 1 after) = None /\
  files after = [] /\
  JSMap.get 1 (accessPermissions (storage after)) = None /\
  JSMap.get 2 (accessPermissions (storage after))
  = Some (Access.mk 2 Example.aliceLower Example.drBob [2] thirtyDays
            (now Example.env)).
Proof.
  assert (G : exists a,
            In a (JSMap.values (accessPermissions (storage Example.sharedBoth)))
            /\ grantCovers Example.drBob
                 (MedicalRecord.patientAddress Example.labARecord)
                 (MedicalRecord.id Example.labARecord) a).
  { exists (Access.mk 1 Example.alice Example.drBob [1] sevenDays
              (now Example.env)).
    split; [left; reflexivity|]. repeat split. left; reflexivity. }
  destruct (deleteRecord_doctor_as_owner Example.env Example.drBob 1
              Example.labARecord Example.sharedBoth eq_refl G)
    as (_ & (Hgone & _) & Hfiles & Hgrants).
  assert (Hnd : NoDup (JSMap.keys (accessPermissions
                                     (storage Example.sharedBoth)))).
  { repeat constructor; simpl; intuition discriminate. }
  destruct (Hgrants Hnd) as (_ & Hempty & Hshrunk & _).
  split; [exact Hgone|].
  split; [exact (eq_trans Hfiles eq_refl)|]. split.
  - apply (Hempty 1 (Access.mk 1 Example.alice Example.drBob [1] sevenDays
                       (now Example.env))).
    + reflexivity.
    + left; reflexivity.
    + reflexivity.
  - apply (Hshrunk 2 (Access.mk 2 Example.aliceLower Example.drBob [1; 2]
                        thirtyDays (now Example.env))).
    + reflexivity.
    + discriminate.
Defined.

(** * Further properties of the store *)

Lemma saveData_dataFile e w :
  dataFile (snd (saveData e w)) = fileAfterWrite e (dataFile w) (storage w).
Proof.
  unfold saveData, fileAfterWrite.
  destruct (writeSucceeds e); [|destruct (writeFailure e)]; reflexivity.
Qed.

Lemma createMedicalRecord_result e r w :
  let R := MedicalRecord.mk (currentRecordId (storage w)) (ir_title r)
             (ir_recordType r) (ir_recordDate r) (ir_patientAddress r)
             (ir_filePath r) (sha256Hex e) (generatedTransactionHash e)
             (now e) in
  fst (createMedicalRecord e r w) = R /\
  storage (snd (createMedicalRecord e r w)) =
    withMedicalRecords (storage w)
      (JSMap.set (currentRecordId (storage w)) R (medicalRecords (storage w)))
      (currentRecordId (storage w) + 1) /\
  files (snd (createMedicalRecord e r w)) = files w.
Proof.
  run. match goal with |- context [saveData e ?x] =>
    destruct (saveData_storage e x) as [Hs Hf]; destruct (saveData e x) end.
  simpl in *. rewrite Hs, Hf. auto.
Qed.

Lemma get_app_last {V} k (v : V) (m : JSMap.t V) k' :
  JSMap.get k m = None ->
  JSMap.get k' (m ++ [(k, v)])
  = if k' =? k then Some v else JSMap.get k' m.
Proof.
  intros H. induction m as [|[k0 v0] m IH]; simpl in *.
  - reflexivity.
  - destruct (k =? k0) eqn:E0; [discriminate|].
    destruct (k' =? k0) eqn:E1.
    + apply Z.eqb_eq in E1. subst k0.
      rewrite Z.eqb_sym, E0. reflexivity.
    + auto.
Qed.

Lemma wfStorage_next_free s :
  wfStorage s ->
  JSMap.get (currentUserId s) (users s) = None /\
  JSMap.get (currentRecordId s) (medicalRecords s) = None /\
  JSMap.get (currentAccessId s) (accessPermissions s) = None.
Proof.
  unfold wfStorage, wellKeyed. rewrite !andb_true_iff.
  intros ((Hu & _) & (Hr & _) & (Ha & _)).
  repeat split; eapply ascending_get_None; eassumption.
Qed.

(** X1.  In a well-formed store, a created record gets the id the counter
    held, which no record had; it can be fetched under that id, every
    other id answers as before, and it comes last in the listing of every
    address equal to its patient's up to letter case, while the listing of
    any other address is unchanged. *)
Theorem createMedicalRecord_listing (e : Env) (r : InsertMedicalRecord)
  (w : World) :
  wfStorage (storage w) ->
  let R := fst (createMedicalRecord e r w) in
  let w' := snd (createMedicalRecord e r w) in
  MedicalRecord.id R = currentRecordId (storage w) /\
  JSMap.get (MedicalRecord.id R) (medicalRecords (storage w)) = None /\
  fst (getMedicalRecord (MedicalRecord.id R) w') = Some R /\
  (forall k, k <> MedicalRecord.id R ->
     fst (getMedicalRecord k w') = fst (getMedicalRecord k w)) /\
  (forall P,
     fst (getMedicalRecordsByPatient P w')
     = if sameAddress (ir_patientAddress r) P
       then fst (getMedicalRecordsByPatient P w) ++ [R]
       else fst (getMedicalRecordsByPatient P w)).
Proof.
  intros Hwf R w'. subst R w'.
  destruct (createMedicalRecord_result e r w) as (-> & Hs & _).
  destruct (wfStorage_next_free _ Hwf) as (_ & Hfree & _).
  unfold getMedicalRecord, getMedicalRecordsByPatient, gets. cbn [fst snd].
  rewrite Hs. cbn [medicalRecords withMedicalRecords MedicalRecord.id].
  rewrite (JSMapFacts.set_fresh _ _ _ Hfree).
  split; [reflexivity|]. split; [assumption|]. split.
  { rewrite (get_app_last _ _ _ _ Hfree). now rewrite Z.eqb_refl. }
  split.
  { intros k Hk. rewrite (get_app_last _ _ _ _ Hfree).
    apply Z.eqb_neq in Hk. now rewrite Hk. }
  intros P. unfold JSMap.values. rewrite map_app, filter_app. simpl.
  destruct (sameAddress (ir_patientAddress r) P); [reflexivity|].
  now rewrite app_nil_r.
Qed.

Lemma revokeAccess_unknown e g w :
  JSMap.get g (accessPermissions (storage w)) = None ->
  revokeAccess e g w = (false, w).
Proof.
  intros H. run.
  assert (Hh : JSMap.has g (accessPermissions (storage w)) = false)
    by now apply JSMapFacts.has_false_get.
  rewrite Hh. apply JSMapFacts.get_None_not_In in H.
  rewrite (delete_not_In _ _ H). destruct w as [[] ? ?]. reflexivity.
Qed.

(** X2.  Revoking an id under which no grant is stored returns false and
    changes nothing, the data file included.  Revoking a stored grant
    returns true; the grant is gone, every other grant, the users and the
    records are as before.  A second revocation of the same id always
    returns false. *)
Theorem revokeAccess_effect (e e' : Env) (g : Z) (w : World) :
  (JSMap.get g (accessPermissions (storage w)) = None ->
   revokeAccess e g w = (false, w)) /\
  (forall a, JSMap.get g (accessPermissions (storage w)) = Some a ->
     let s' := storage (snd (revokeAccess e g w)) in
     fst (revokeAccess e g w) = true /\
     JSMap.get g (accessPermissions s') = None /\
     (forall k, k <> g ->
        JSMap.get k (accessPermissions s')
        = JSMap.get k (accessPermissions (storage w))) /\
     users s' = users (storage w) /\
     medicalRecords s' = medicalRecords (storage w)) /\
  fst (revokeAccess e' g (snd (revokeAccess e g w))) = false.
Proof.
  split; [apply revokeAccess_unknown|]. split.
  - intros a Ha. destruct (revokeAccess_result e g w) as (-> & -> & _).
    simpl. split; [apply JSMapFacts.has_get; congruence|].
    split; [apply JSMapFacts.get_delete_same|].
    split; [intros k Hk; now apply JSMapFacts.get_delete_other | auto].
  - destruct (revokeAccess_result e' g (snd (revokeAccess e g w)))
      as (-> & _).
    destruct (revokeAccess_result e g w) as (_ & -> & _). simpl.
    apply JSMapFacts.has_false_get. apply JSMapFacts.get_delete_same.
Qed.

(** X3.  Deleting a stored record touches the file system in one way
    only: when the record has a non-empty file path, that path exists and
    the removal goes through, that path is removed; in every other case,
    a failed removal among them, the files are as before.  The record goes
    either way, and the users and the three id counters are unchanged.
    Deleting the same id again returns false and changes nothing. *)
Theorem deleteMedicalRecord_files_and_repeat (e e' : Env) (i : Z)
  (R : MedicalRecord.t) (w : World) :
  JSMap.get i (medicalRecords (storage w)) = Some R ->
  let w' := snd (deleteMedicalRecord e i w) in
  let path := MedicalRecord.filePath R in
  files w'
  = (if (negb (String.eqb path "") && existsb (String.eqb path) (files w)
         && unlinkSucceeds e)%bool
     then filter (fun p => negb (String.eqb p path)) (files w)
     else files w) /\
  fst (getMedicalRecord i w') = None /\
  users (storage w') = users (storage w) /\
  currentUserId (storage w') = currentUserId (storage w) /\
  currentRecordId (storage w') = currentRecordId (storage w) /\
  currentAccessId (storage w') = currentAccessId (storage w) /\
  deleteMedicalRecord e' i w' = (false, w').
Proof.
  intros Hget w' path. subst w' path.
  rewrite (deleteMedicalRecord_files e i R w Hget), removeFile_files.
  split; [reflexivity|].
  assert (G : fst (getMedicalRecord i (snd (deleteMedicalRecord e i w))) = None).
  { destruct (deleteMedicalRecord_found e i R w Hget) as [_ Hs].
    unfold getMedicalRecord, gets. simpl. rewrite Hs. simpl.
    apply JSMapFacts.get_delete_same. }
  split; [exact G|].
  destruct (deleteMedicalRecord_found e i R w Hget) as [_ Hs].
  rewrite Hs. simpl. repeat split.
  apply deleteMedicalRecord_unknown. exact G.
Qed.

Lemma saveData_written e w x :
  dataFile x = dataFile w ->
  dataFile (snd (saveData e x))
  = fileAfterWrite e (dataFile w) (storage (snd (saveData e x))).
Proof.
  intros Hx. rewrite saveData_dataFile.
  destruct (saveData_storage e x) as [-> _]. now rewrite Hx.
Qed.

Lemma createUser_dataFile e u w :
  dataFile (snd (createUser e u w))
  = fileAfterWrite e (dataFile w) (storage (snd (createUser e u w))).
Proof.
  run. match goal with |- context [saveData e ?x] =>
    pose proof (saveData_written e w x eq_refl) as S;
    destruct (saveData e x) end. exact S.
Qed.

Lemma createMedicalRecord_dataFile e r w :
  dataFile (snd (createMedicalRecord e r w))
  = fileAfterWrite e (dataFile w) (storage (snd (createMedicalRecord e r w))).
Proof.
  run. match goal with |- context [saveData e ?x] =>
    pose proof (saveData_written e w x eq_refl) as S;
    destruct (saveData e x) end. exact S.
Qed.

Lemma createAccess_dataFile e a w :
  dataFile (snd (createAccess e a w))
  = fileAfterWrite e (dataFile w) (storage (snd (createAccess e a w))).
Proof.
  run. match goal with |- context [saveData e ?x] =>
    pose proof (saveData_written e w x eq_refl) as S;
    destruct (saveData e x) end. exact S.
Qed.

Lemma revokeAccess_dataFile e g w :
  if fst (revokeAccess e g w)
  then dataFile (snd (revokeAccess e g w))
       = fileAfterWrite e (dataFile w) (storage (snd (revokeAccess e g w)))
  else dataFile (snd (revokeAccess e g w)) = dataFile w.
Proof.
  run. set (w1 := withStorage w _).
  destruct (JSMap.has g _); simpl; [|reflexivity].
  pose proof (saveData_written e w w1 eq_refl) as S.
  destruct (saveData e w1). exact S.
Qed.

Lemma deleteMedicalRecord_dataFile e i w :
  if fst (deleteMedicalRecord e i w)
  then dataFile (snd (deleteMedicalRecord e i w))
       = fileAfterWrite e (dataFile w) (storage (snd (deleteMedicalRecord e i w)))
  else dataFile (snd (deleteMedicalRecord e i w)) = dataFile w.
Proof.
  run.
  destruct (JSMap.get i (medicalRecords (storage w))) as [R|]; simpl;
    [|reflexivity].
  destruct (removeFile_storage e (MedicalRecord.filePath R) w) as [_ Hd].
  destruct (removeFile e (MedicalRecord.filePath R) w) as [[] w1].
  simpl in Hd. set (w2 := withStorage (withStorage w1 _) _).
  destruct (JSMap.has i _); simpl; [|exact Hd].
  pose proof (saveData_written e w w2 Hd) as S.
  destruct (saveData e w2). exact S.
Qed.

(** X4.  Each of the five mutators writes the data file from the memory
    it leaves.  After [createUser], [createMedicalRecord] and [createAccess],
    and after a [revokeAccess] or [deleteMedicalRecord] that returned true,
    the data file holds the document of the resulting store when the write
    succeeds.  When the write fails the change is in memory all the same,
    and the data file is the old one if the file could not be opened, does
    not parse if the write stopped part-way, and holds the document of the
    resulting store if only the close failed.  A [revokeAccess] or
    [deleteMedicalRecord] that returned false leaves the data file alone. *)
Theorem mutators_write_data_file (e : Env) (w : World) :
  let written (w' : World) :=
    dataFile w'
    = if writeSucceeds e then Some (Parsed (toDocument (storage w')))
      else
        match writeFailure e with
        | BeforeOpen => dataFile w
        | DuringWrite => Some Malformed
        | AtClose => Some (Parsed (toDocument (storage w')))
        end in
  (forall u, written (snd (createUser e u w))) /\
  (forall r, written (snd (createMedicalRecord e r w))) /\
  (forall a, written (snd (createAccess e a w))) /\
  (forall g, if fst (revokeAccess e g w)
             then written (snd (revokeAccess e g w))
             else dataFile (snd (revokeAccess e g w)) = dataFile w) /\
  (forall i, if fst (deleteMedicalRecord e i w)
             then written (snd (deleteMedicalRecord e i w))
             else dataFile (snd (deleteMedicalRecord e i w)) = dataFile w).
Proof.
  cbv zeta. split; [|split; [|split; [|split]]].
  - intros u. apply createUser_dataFile.
  - intros r. apply createMedicalRecord_dataFile.
  - intros a. apply createAccess_dataFile.
  - intros g. apply revokeAccess_dataFile.
  - intros i. apply deleteMedicalRecord_dataFile.
Qed.

Lemma createMedicalRecord_listing_witness :
  map MedicalRecord.id
    (fst (getMedicalRecordsByPatient Example.aliceLower Example.uploaded))
  = [1; 2] /\
  fst (getMedicalRecordsByPatient Example.drBob Example.uploaded) = [].
Proof.
  assert (W : wfStorage (storage (snd (createMedicalRecord Example.env
                                         Example.labA Example.fresh))))
    by (repeat split).
  destruct (createMedicalRecord_listing Example.env Example.xRay _ W)
    as (_ & _ & _ & _ & H).
  unfold Example.uploaded. split.
  - rewrite (H Example.aliceLower). reflexivity.
  - rewrite (H Example.drBob). reflexivity.
Defined.

Lemma revokeAccess_effect_witness :
  revokeAccess Example.env 5 Example.granted = (false, Example.granted) /\
  fst (revokeAccess Example.env 1 Example.granted) = true.
Proof.
  destruct (revokeAccess_effect Example.env Example.env 5 Example.granted)
    as (H5 & _ & _).
  destruct (revokeAccess_effect Example.env Example.env 1 Example.granted)
    as (_ & H1 & _).
  split.
  - apply H5. reflexivity.
  - apply (H1 (Access.mk 1 Example.alice Example.drBob [1] sevenDays
                 (now Example.env))). reflexivity.
Defined.

Lemma deleteMedicalRecord_files_and_repeat_witness :
  files (snd (deleteMedicalRecord Example.env 1 Example.granted)) = [] /\
  deleteMedicalRecord Example.env 1
    (snd (deleteMedicalRecord Example.env 1 Example.granted))
  = (false, snd (deleteMedicalRecord Example.env 1 Example.granted)).
Proof.
  destruct (deleteMedicalRecord_files_and_repeat Example.env Example.env 1
              Example.labARecord Example.granted eq_refl)
    as (Hf & _ & _ & _ & _ & _ & Hr).
  split; [rewrite Hf; reflexivity | exact Hr].
Defined.

(** * Further properties of the routes *)

Lemma find_values_set {V} (f : V -> bool) k (v : V) (m : JSMap.t V) :
  find f (JSMap.values m) = None -> f v = true ->
  find f (JSMap.values (JSMap.set k v m)) = Some v.
Proof.
  intros Hnone Hv. induction m as [|[k0 v0] m IH]; simpl in *.
  - now rewrite Hv.
  - destruct (f v0) eqn:F0; [discriminate|].
    destruct (k =? k0); simpl; [now rewrite Hv | rewrite F0; auto].
Qed.

Lemma postUsers_cases e b w :
  match insertUserSchema b with
  | None => postUsers e b w = ({| status := 400; body := ValidationError |}, w)
  | Some u =>
      match fst (getUserByAddress (iu_address u) w) with
      | Some _ =>
          postUsers e b w
          = ({| status := 409; body := Message "User already exists" |}, w)
      | None =>
          postUsers e b w
          = ({| status := 201; body := UserJson (fst (createUser e u w)) |},
             snd (createUser e u w))
      end
  end.
Proof.
  unfold postUsers. destruct (insertUserSchema b) as [u|]; [|reflexivity].
  unfold bind, getUserByAddress, gets, respond, ret. cbn [fst snd].
  destruct (find _ _); [reflexivity|].
  now destruct (createUser e u w).
Qed.

Lemma sameAddress_congr x A A' :
  toLowerCase A' = toLowerCase A -> sameAddress x A' = sameAddress x A.
Proof. unfold sameAddress. now intros ->. Qed.

Lemma find_ext_in {A} (f g : A -> bool) (l : list A) :
  (forall x, f x = g x) -> find f l = find g l.
Proof.
  intros H. induction l as [|x l IH]; simpl; [reflexivity|].
  now rewrite H, IH.
Qed.

(** X6.  Registration and the existence check agree.  A registration with
    a valid role is answered 201 exactly when the check for its address
    said "does not exist"; after a 201, the check for any address equal to
    it up to letter case says "exists" with the role just registered, and
    changes nothing. *)
Theorem register_then_exists (e : Env) (A A' : string) (r : Role) (w : World) :
  let first := postUsers e {| ub_address := A; ub_role := roleName r |} w in
  (status (fst first) = 201 <->
   fst (checkUser A w) = {| code := 200; payload := ExistsJson false None |}) /\
  (status (fst first) = 201 ->
   toLowerCase A' = toLowerCase A ->
   checkUser A' (snd first)
   = ({| code := 200; payload := ExistsJson true (Some r) |}, snd first)).
Proof.
  intros first. subst first.
  pose proof (postUsers_cases e {| ub_address := A; ub_role := roleName r |} w)
    as C.
  unfold insertUserSchema in C. simpl in C. rewrite parseRole_name in C.
  simpl in C. unfold checkUser, bind, reply, ret.
  unfold getUserByAddress, gets in *. cbn [fst snd] in *.
  destruct (find _ (JSMap.values (users (storage w)))) as [u0|] eqn:F;
    rewrite C; cbn [fst snd status].
  - split; [split; discriminate | discriminate].
  - split; [split; reflexivity|]. intros _ Hcase.
    destruct (createUser_result e {| iu_address := A; iu_role := r |} w)
      as (_ & ->).
    cbn [users withUsers iu_address iu_role].
    rewrite (find_ext_in _ (fun user => sameAddress (User.address user) A))
      by (intros x; now apply sameAddress_congr).
    rewrite (find_values_set _ _ _ _ F).
    + reflexivity.
    + apply sameAddress_true. reflexivity.
Qed.

Lemma register_then_exists_witness :
  checkUser Example.aliceLower
    (snd (postUsers Example.env
            {| ub_address := Example.alice; ub_role := roleName patient |}
            Example.fresh))
  = ({| code := 200; payload := ExistsJson true (Some patient) |},
     snd (postUsers Example.env
            {| ub_address := Example.alice; ub_role := roleName patient |}
            Example.fresh)).
Proof.
  apply (proj2 (register_then_exists Example.env Example.alice
                  Example.aliceLower patient Example.fresh)).
  - reflexivity.
  - reflexivity.
Defined.

Lemma deleteRecord_stored e user id R w :
  JSMap.get id (medicalRecords (storage w)) = Some R ->
  (permitted user R w = true ->
   deleteRecord e (Some user) (Some id) w
   = ({| status := 200; body := Message "Record deleted successfully" |},
      snd (deleteMedicalRecord e id w))) /\
  (permitted user R w = false ->
   status (fst (deleteRecord e (Some user) (Some id) w)) = 403 /\
   snd (deleteRecord e (Some user) (Some id) w) = w).
Proof.
  intros Hget. destruct (deleteMedicalRecord_found e id R w Hget) as [Hok _].
  unfold permitted, deleteRecord, authenticate, bind, getMedicalRecord,
    hasAccess, getAccessByDoctor, gets, respond, ret.
  simpl. rewrite Hget.
  destruct (sessionRole user); simpl.
  - destruct (sameAddress _ _); simpl; split; try discriminate; intros _.
    + destruct (deleteMedicalRecord e id w) as [ok w']. simpl in Hok.
      now subst ok.
    + split; reflexivity.
  - destruct (existsb _ _); simpl; split; try discriminate; intros _.
    + destruct (deleteMedicalRecord e id w) as [ok w']. simpl in Hok.
      now subst ok.
    + split; reflexivity.
Qed.

Lemma deleteAccess_stored e user g a w :
  JSMap.get g (accessPermissions (storage w)) = Some a ->
  let refused :=
    (match sessionRole user with patient => true | doctor => false end
     && negb (sameAddress (sessionAddress user) (Access.patientAddress a)))%bool in
  deleteAccess e (Some user) (Some g) w
  = if refused
    then ({| status := 403;
             body := Message "You can only revoke your own access permissions" |},
          w)
    else ({| status := 200; body := Message "Access revoked successfully" |},
          snd (revokeAccess e g w)).
Proof.
  intros Hget refused. subst refused.
  destruct (revokeAccess_result e g w) as (Hok & _).
  assert (Hh : JSMap.has g (accessPermissions (storage w)) = true).
  { apply JSMapFacts.has_get. congruence. }
  rewrite Hh in Hok.
  unfold deleteAccess, authenticate, bind, getAccess, gets, respond, ret.
  simpl. rewrite Hget.
  destruct (_ && _)%bool; [reflexivity|].
  destruct (revokeAccess e g w) as [ok w']. simpl in Hok. now subst ok.
Qed.

(** X7.  A request that is turned down changes nothing.  When [POST
    /api/users] or [POST /api/access] answers anything but 201, or [DELETE
    /api/records/:id] or [DELETE /api/access/:id] anything but 200, the
    whole state is as before; when [POST /api/records] answers anything but
    201 the stores and the data file are as before (an accepted upload that
    came with the request stays on disk). *)
Theorem rejected_requests_change_nothing (e : Env) (session : Session)
  (w : World) :
  (forall b, status (fst (postUsers e b w)) <> 201 ->
             snd (postUsers e b w) = w) /\
  (forall b, status (fst (postAccess e session b w)) <> 201 ->
             snd (postAccess e session b w) = w) /\
  (forall id, status (fst (deleteRecord e session id w)) <> 200 ->
              snd (deleteRecord e session id w) = w) /\
  (forall id, status (fst (deleteAccess e session id w)) <> 200 ->
              snd (deleteAccess e session id w) = w) /\
  (forall file b, code (fst (postRecords e session file b w)) <> 201 ->
     storage (snd (postRecords e session file b w)) = storage w /\
     dataFile (snd (postRecords e session file b w)) = dataFile w).
Proof.
  assert (DR : forall id,
    status (fst (deleteRecord e session id w)) <> 200 ->
    snd (deleteRecord e session id w) = w).
  { intros id. destruct session as [user|]; [|reflexivity].
    destruct id as [id|]; [|reflexivity].
    destruct (JSMap.get id (medicalRecords (storage w))) as [R|] eqn:G.
    - destruct (deleteRecord_stored e user id R w G) as [Hy Hn].
      destruct (permitted user R w).
      + rewrite (Hy eq_refl). simpl. congruence.
      + destruct (Hn eq_refl) as [_ H2]. now rewrite H2.
    - unfold deleteRecord, authenticate, bind, getMedicalRecord, gets, respond,
        ret. simpl. rewrite G. reflexivity. }
  assert (DA : forall id,
    status (fst (deleteAccess e session id w)) <> 200 ->
    snd (deleteAccess e session id w) = w).
  { intros id. destruct session as [user|]; [|reflexivity].
    destruct id as [id|]; [|reflexivity].
    destruct (JSMap.get id (accessPermissions (storage w))) as [a|] eqn:G.
    - rewrite (deleteAccess_stored e user id a w G). cbv zeta.
      destruct (_ && _)%bool; simpl; [reflexivity | congruence].
    - unfold deleteAccess, authenticate, bind, getAccess, gets, respond, ret.
      simpl. rewrite G. reflexivity. }
  split.
  { intros b. pose proof (postUsers_cases e b w) as C.
    destruct (insertUserSchema b) as [u|]; [|now rewrite C].
    destruct (fst (getUserByAddress (iu_address u) w));
      rewrite C; simpl; [reflexivity | congruence]. }
  split.
  { intros b. unfold postAccess, authenticate, respond, ret.
    destruct session as [user|]; [|reflexivity].
    destruct (sessionRole user); [|reflexivity].
    destruct (negb _); [reflexivity|].
    destruct (insertAccessSchema b) as [a|]; [|reflexivity].
    unfold bind, getMedicalRecordsByPatient, gets. simpl.
    destruct (0 <? _); [reflexivity|].
    destruct (createAccess e a w). simpl. congruence. }
  split; [intros id; apply DR|]. split; [intros id; apply DA|].
  intros file b. unfold postRecords, authenticated, reply, ret.
  destruct session as [user|]; [|auto].
  destruct file as [|path|]; [auto| |auto].
  unfold bind, storeUpload. simpl.
  destruct (_ || _)%bool; [auto|].
  destruct (_ && _)%bool; [auto|].
  destruct (createMedicalRecord e _ _). simpl. congruence.
Qed.

Lemma rejected_requests_change_nothing_witness :
  snd (postAccess Example.env Example.bobSession Example.grantLabA
         Example.uploaded) = Example.uploaded /\
  snd (deleteRecord Example.env Example.bobSession (Some 2) Example.granted)
  = Example.granted.
Proof.
  split.
  - apply (proj1 (proj2 (rejected_requests_change_nothing Example.env
                           Example.bobSession Example.uploaded))).
    discriminate.
  - apply (proj1 (proj2 (proj2 (rejected_requests_change_nothing Example.env
                                  Example.bobSession Example.granted)))).
    discriminate.
Defined.

Lemma getAccessibleRecordsByDoctor_pure D w :
  snd (getAccessibleRecordsByDoctor D w) = w.
Proof.
  unfold getAccessibleRecordsByDoctor, bind.
  unfold getAccessByDoctor at 1. unfold gets at 1.
  now rewrite collectRecords_flat_map.
Qed.

Lemma getAccessibleRecordsByDoctor_value D w :
  fst (getAccessibleRecordsByDoctor D w) =
  (fst (getAccessByDoctor D w),
   flat_map (fun p => fst (getMedicalRecordsByPatient p w))
     (distinct [] (map Access.patientAddress (fst (getAccessByDoctor D w))))).
Proof.
  unfold getAccessibleRecordsByDoctor, bind.
  unfold getAccessByDoctor at 1. unfold gets at 1.
  now rewrite collectRecords_flat_map.
Qed.

(** X8.  The reading routes never change the state, the stores, the data
    file and the files on disk alike, whoever asks and whatever is asked:
    the user check, the record listing, view and download, and the two
    grant listings. *)
Theorem reading_routes_change_nothing (session : Session) (w : World) :
  (forall address, snd (checkUser address w) = w) /\
  (forall patientAddress, snd (getRecords session patientAddress w) = w) /\
  (forall id, snd (viewRecord session id w) = w) /\
  (forall id, snd (downloadRecord session id w) = w) /\
  (forall patientAddress, snd (listAccess session patientAddress w) = w) /\
  (forall doctorAddress, snd (listAccessDoctor session doctorAddress w) = w).
Proof.
  split.
  { intros address. unfold checkUser, bind, getUserByAddress, gets, reply, ret.
    simpl. now destruct (find _ _). }
  split.
  { intros [P|]; destruct session as [user|]; try reflexivity. run.
    destruct (String.eqb P ""); [reflexivity|].
    destruct (sessionRole user); simpl.
    - now destruct (sameAddress _ _).
    - now destruct (existsb _ _). }
  split.
  { intros [id|]; destruct session as [user|]; try reflexivity. run.
    destruct (JSMap.get id _) as [R|]; [|reflexivity].
    destruct (sessionRole user); simpl.
    - destruct (sameAddress _ _); simpl; [|reflexivity].
      now destruct (existsb _ (files w)).
    - destruct (existsb _ (filter _ _)); simpl; [|reflexivity].
      now destruct (existsb _ (files w)). }
  split.
  { intros [id|]; destruct session as [user|]; try reflexivity.
    unfold downloadRecord, authenticated, bind, getMedicalRecord, hasAccess,
      getAccessByDoctor, existsSync, gets, reply, ret. simpl.
    destruct (JSMap.get id _) as [R|]; [|reflexivity].
    destruct (sessionRole user); simpl.
    - destruct (sameAddress _ _); simpl; [|reflexivity].
      now destruct (existsb _ (files w)).
    - destruct (existsb _ (filter _ _)); simpl; [|reflexivity].
      now destruct (existsb _ (files w)). }
  split.
  { intros [P|]; destruct session as [user|]; try reflexivity.
    unfold listAccess, authenticated, bind, getAccessByPatient, gets, reply, ret.
    destruct (String.eqb P ""); [reflexivity|].
    now destruct (_ && _)%bool. }
  intros [D|]; destruct session as [user|]; try reflexivity.
  unfold listAccessDoctor, authenticated, bind, reply, ret.
  destruct (String.eqb D ""); [reflexivity|].
  destruct (_ && _)%bool; [reflexivity|].
  pose proof (getAccessibleRecordsByDoctor_pure D w) as H.
  destruct (getAccessibleRecordsByDoctor D w). exact H.
Qed.

(** X9.  For a record stored under [id], the view, download and delete
    routes make one and the same decision: a patient must own the record,
    a doctor must hold a grant that covers it.  When the test fails all
    three answer 403 (and the deletion changes nothing).  When it passes,
    view and download answer alike, 200 if the record's file is on disk and
    404 if it is not, and the deletion answers 200. *)
Theorem record_routes_decide_alike (e : Env) (user : SessionUser) (id : Z)
  (R : MedicalRecord.t) (w : World) :
  JSMap.get id (medicalRecords (storage w)) = Some R ->
  let view := viewRecord (Some user) (Some id) w in
  let download := downloadRecord (Some user) (Some id) w in
  let delete := deleteRecord e (Some user) (Some id) w in
  let onDisk := existsb (String.eqb (MedicalRecord.filePath R)) (files w) in
  if permitted user R w
  then status (fst view) = (if onDisk then 200 else 404) /\
       code (fst download) = (if onDisk then 200 else 404) /\
       status (fst delete) = 200
  else status (fst view) = 403 /\
       code (fst download) = 403 /\
       status (fst delete) = 403 /\ snd delete = w.
Proof.
  intros Hget view download delete onDisk.
  subst view download delete onDisk.
  destruct (deleteRecord_stored e user id R w Hget) as [Hy Hn].
  destruct (permitted user R w) eqn:P.
  - rewrite (Hy eq_refl). clear Hy Hn.
    unfold permitted, hasAccess, bind, getAccessByDoctor, gets, ret in P.
    unfold viewRecord, downloadRecord, authenticate, authenticated, hasAccess,
      bind, getMedicalRecord, getAccessByDoctor, existsSync, gets, respond,
      reply, ret.
    simpl in *. rewrite Hget.
    destruct (sessionRole user); simpl; rewrite P; simpl;
      destruct (existsb _ (files w)); simpl; auto.
  - destruct (Hn eq_refl) as [H1 H2]. clear Hy Hn.
    unfold permitted, hasAccess, bind, getAccessByDoctor, gets, ret in P.
    unfold viewRecord, downloadRecord, authenticate, authenticated, hasAccess,
      bind, getMedicalRecord, getAccessByDoctor, existsSync, gets, respond,
      reply, ret.
    simpl in *. rewrite Hget.
    destruct (sessionRole user); simpl; rewrite P; simpl; auto.
Qed.

Lemma record_routes_decide_alike_witness :
  status (fst (viewRecord Example.bobSession (Some 2) Example.granted)) = 403 /\
  code (fst (downloadRecord Example.bobSession (Some 2) Example.granted)) = 403.
Proof.
  pose proof (record_routes_decide_alike Example.env
                {| sessionAddress := Example.drBob; sessionRole := doctor |} 2
                (MedicalRecord.mk 2 "X-ray" "imaging" "2024-02-01" Example.alice
                   "uploads/file-2.png" (sha256Hex Example.env)
                   (generatedTransactionHash Example.env) (now Example.env))
                Example.granted eq_refl) as H.
  cbv zeta in H.
  change (permitted _ _ Example.granted) with false in H.
  destruct H as (H1 & H2 & _). split; [exact H1 | exact H2].
Defined.

(** X10.  Who may revoke.  For a grant stored under [g]: a patient whose
    address differs from the grant's patient, letter case aside, is answered
    403 and nothing changes; the grant's own patient, and any doctor
    whatever (also one the grant does not name), is answered 200 and the
    grant is gone.  An id under which no grant is stored is answered 404. *)
Theorem deleteAccess_who_may_revoke (e : Env) (user : SessionUser) (g : Z)
  (w : World) :
  (forall a, JSMap.get g (accessPermissions (storage w)) = Some a ->
     match sessionRole user with
     | patient =>
         if sameAddress (sessionAddress user) (Access.patientAddress a)
         then status (fst (deleteAccess e (Some user) (Some g) w)) = 200 /\
              fst (getAccess g (snd (deleteAccess e (Some user) (Some g) w)))
              = None
         else status (fst (deleteAccess e (Some user) (Some g) w)) = 403 /\
              snd (deleteAccess e (Some user) (Some g) w) = w
     | doctor =>
         status (fst (deleteAccess e (Some user) (Some g) w)) = 200 /\
         fst (getAccess g (snd (deleteAccess e (Some user) (Some g) w))) = None
     end) /\
  (JSMap.get g (accessPermissions (storage w)) = None ->
   deleteAccess e (Some user) (Some g) w
   = ({| status := 404; body := Message "Access permission not found" |}, w)).
Proof.
  split.
  - intros a Hget. rewrite (deleteAccess_stored e user g a w Hget). cbv zeta.
    assert (Gone : fst (getAccess g (snd (revokeAccess e g w))) = None).
    { unfold getAccess, gets. simpl.
      destruct (revokeAccess_result e g w) as (_ & -> & _). simpl.
      apply JSMapFacts.get_delete_same. }
    destruct (sessionRole user); simpl.
    + destruct (sameAddress _ _); simpl; auto.
    + auto.
  - intros Hget. unfold deleteAccess, authenticate, bind, getAccess, gets,
      respond, ret. simpl. now rewrite Hget.
Qed.

Lemma deleteAccess_who_may_revoke_witness :
  status (fst (deleteAccess Example.env
                 (Some {| sessionAddress := "0xE7E"; sessionRole := doctor |})
                 (Some 1) Example.granted)) = 200.
Proof.
  apply (proj1 (deleteAccess_who_may_revoke Example.env
                  {| sessionAddress := "0xE7E"; sessionRole := doctor |} 1
                  Example.granted)
           (Access.mk 1 Example.alice Example.drBob [1] sevenDays
              (now Example.env)) eq_refl).
Defined.

Lemma listAccess_cases (user : SessionUser) (P : string) (w : World) :
  P <> "" ->
  fst (listAccess (Some user) (Some P) w)
  = if (match sessionRole user with patient => true | doctor => false end
        && negb (sameAddress (sessionAddress user) P))%bool
    then {| code := 403;
            payload := Text "You can only view your own access permissions" |}
    else {| code := 200;
            payload := AccessListJson (fst (getAccessByPatient P w)) |}.
Proof.
  intros HP.
  unfold listAccess, authenticated, bind, getAccessByPatient, gets, reply, ret.
  destruct (String.eqb_spec P ""); [contradiction|].
  now destruct (_ && _)%bool.
Qed.

Lemma listAccessDoctor_cases (user : SessionUser) (D : string) (w : World) :
  D <> "" ->
  fst (listAccessDoctor (Some user) (Some D) w)
  = if (match sessionRole user with doctor => true | patient => false end
        && negb (sameAddress (sessionAddress user) D))%bool
    then {| code := 403;
            payload := Text "You can only view your own accessible records" |}
    else {| code := 200;
            payload :=
              AccessibleJson
                (fst (fst (getAccessibleRecordsByDoctor D w)))
                (snd (fst (getAccessibleRecordsByDoctor D w))) |}.
Proof.
  intros HD. unfold listAccessDoctor, authenticated, bind, reply, ret.
  destruct (String.eqb_spec D ""); [contradiction|].
  destruct (_ && _)%bool; [reflexivity|].
  now destruct (getAccessibleRecordsByDoctor D w).
Qed.

(** X11.  Who can read a patient's grants.  For a non-empty address [P]:
    a patient whose address differs from [P], letter case aside, is answered
    403.  Every other caller, the patient [P] and also any doctor whatever
    (one that no grant names among them), is answered 200 with a list that
    holds every stored grant whose patient address equals [P] up to letter
    case. *)
Theorem listAccess_who_may_list (user : SessionUser) (P : string) (w : World) :
  P <> "" ->
  (sessionRole user = patient ->
   sameAddress (sessionAddress user) P = false ->
   code (fst (listAccess (Some user) (Some P) w)) = 403) /\
  (sessionRole user = doctor \/ sameAddress (sessionAddress user) P = true ->
   exists accessList,
     fst (listAccess (Some user) (Some P) w)
     = {| code := 200; payload := AccessListJson accessList |} /\
     forall a, In a (JSMap.values (accessPermissions (storage w))) ->
               toLowerCase (Access.patientAddress a) = toLowerCase P ->
               In a accessList).
Proof.
  intros HP. rewrite (listAccess_cases user P w HP). split.
  - intros -> ->. reflexivity.
  - intros Hmay.
    assert (E : (match sessionRole user with patient => true | doctor => false end
                 && negb (sameAddress (sessionAddress user) P))%bool = false).
    { destruct Hmay as [-> | ->]; [reflexivity|]. simpl. apply andb_false_r. }
    rewrite E. eexists. split; [reflexivity|].
    intros a Ha Hp. unfold getAccessByPatient, gets. cbn [fst].
    apply filter_In. split; [assumption | now apply sameAddress_true].
Qed.

Lemma listAccess_who_may_list_witness :
  code (fst (listAccess
               (Some {| sessionAddress := "0xE7E"; sessionRole := patient |})
               (Some Example.alice) Example.granted)) = 403.
Proof.
  apply (proj1 (listAccess_who_may_list
                  {| sessionAddress := "0xE7E"; sessionRole := patient |}
                  Example.alice Example.granted ltac:(discriminate))).
  - reflexivity.
  - reflexivity.
Defined.

(** X12.  Who can read what a doctor reaches.  For a non-empty address
    [D]: a doctor whose address differs from [D], letter case aside, is
    answered 403.  Every other caller, the doctor [D] and also any patient
    whatever, is answered 200 with every stored grant that names [D] as
    doctor and with every stored record of every patient of such a grant,
    records of other patients than the caller among them. *)
Theorem listAccessDoctor_who_may_list (user : SessionUser) (D : string)
  (w : World) :
  D <> "" ->
  (sessionRole user = doctor ->
   sameAddress (sessionAddress user) D = false ->
   code (fst (listAccessDoctor (Some user) (Some D) w)) = 403) /\
  (sessionRole user = patient \/ sameAddress (sessionAddress user) D = true ->
   exists accessList records,
     fst (listAccessDoctor (Some user) (Some D) w)
     = {| code := 200; payload := AccessibleJson accessList records |} /\
     forall a, In a (JSMap.values (accessPermissions (storage w))) ->
               toLowerCase (Access.doctorAddress a) = toLowerCase D ->
               In a accessList /\
               forall r, In r (JSMap.values (medicalRecords (storage w))) ->
                         toLowerCase (MedicalRecord.patientAddress r)
                         = toLowerCase (Access.patientAddress a) ->
                         In r records).
Proof.
  intros HD. rewrite (listAccessDoctor_cases user D w HD). split.
  - intros -> ->. reflexivity.
  - intros Hmay.
    assert (E : (match sessionRole user with doctor => true | patient => false end
                 && negb (sameAddress (sessionAddress user) D))%bool = false).
    { destruct Hmay as [-> | ->]; [reflexivity|]. simpl. apply andb_false_r. }
    rewrite E. do 2 eexists. split; [reflexivity|].
    rewrite getAccessibleRecordsByDoctor_value. cbn [fst snd].
    intros a Ha Hd.
    assert (Hlist : In a (fst (getAccessByDoctor D w))).
    { unfold getAccessByDoctor, gets. cbn [fst]. apply filter_In.
      split; [assumption | now apply sameAddress_true]. }
    split; [assumption|]. intros r Hr Hp.
    apply in_flat_map. exists (Access.patientAddress a). split.
    + apply In_distinct. split; [now apply in_map | tauto].
    + unfold getMedicalRecordsByPatient, gets. cbn [fst]. apply filter_In.
      split; [assumption | now apply sameAddress_true].
Qed.

Lemma listAccessDoctor_who_may_list_witness :
  exists accessList records,
    fst (listAccessDoctor
           (Some {| sessionAddress := "0xE7E"; sessionRole := patient |})
           (Some Example.drBob) Example.granted)
    = {| code := 200; payload := AccessibleJson accessList records |} /\
    In Example.labARecord records.
Proof.
  destruct (proj2 (listAccessDoctor_who_may_list
                     {| sessionAddress := "0xE7E"; sessionRole := patient |}
                     Example.drBob Example.granted ltac:(discriminate))
              (or_introl eq_refl))
    as (accessList & records & Heq & Hall).
  exists accessList, records. split; [exact Heq|].
  apply (Hall (Access.mk 1 Example.alice Example.drBob [1] sevenDays
                 (now Example.env))).
  - left. reflexivity.
  - reflexivity.
  - left. reflexivity.
  - reflexivity.
Defined.

Lemma postRecords_cases (e : Env) (user : SessionUser) (path : string)
  (b : RecordBody) (w : World) :
  let w1 := withFiles w (path :: files w) in
  let missing :=
    (String.eqb (rb_title b) "" || String.eqb (rb_recordType b) ""
     || String.eqb (rb_recordDate b) ""
     || String.eqb (rb_patientAddress b) "")%bool in
  let foreign :=
    (match sessionRole user with patient => true | doctor => false end
     && negb (sameAddress (sessionAddress user) (rb_patientAddress b)))%bool in
  let r := {| ir_title := rb_title b; ir_recordType := rb_recordType b;
              ir_recordDate := rb_recordDate b;
              ir_patientAddress := rb_patientAddress b;
              ir_filePath := path |} in
  postRecords e (Some user) (Stored path) b w
  = if missing
    then ({| code := 400; payload := Text "Missing required fields" |}, w1)
    else if foreign
    then ({| code := 403;
             payload := Text "You can only upload records for yourself" |}, w1)
    else ({| code := 201;
             payload := RecordJson (fst (createMedicalRecord e r w1)) |},
          snd (createMedicalRecord e r w1)).
Proof.
  cbv zeta.
  unfold postRecords, authenticated, bind, storeUpload, reply, ret. simpl.
  destruct (_ || _)%bool; [reflexivity|].
  destruct (_ && _)%bool; [reflexivity|].
  now destruct (createMedicalRecord e _ _).
Qed.

(** X13.  Uploading a record.  When the upload route answers 201 there
    was a session and an accepted file; the answer carries a record with the
    four fields of the request, all non-empty, the path of the uploaded file
    and the id the counter held; the record can be fetched under that id and
    the file is on disk.  If the session was a patient's, the record's
    patient address is the session's address up to letter case: a patient
    cannot create a record for somebody else (a doctor can, for any
    address).  When a request whose file was accepted is answered otherwise,
    no record is created and the uploaded file stays on disk.  When the
    file was turned down by the upload middleware, the answer is 500 and
    nothing changes, no file being kept. *)
Theorem postRecords_creates_owned_record (e : Env) (session : Session)
  (file : Upload) (b : RecordBody) (w : World) :
  let answer := fst (postRecords e session file b w) in
  let w' := snd (postRecords e session file b w) in
  (code answer = 201 ->
   exists user path,
     session = Some user /\ file = Stored path /\
     let R := MedicalRecord.mk (currentRecordId (storage w)) (rb_title b)
                (rb_recordType b) (rb_recordDate b) (rb_patientAddress b) path
                (sha256Hex e) (generatedTransactionHash e) (now e) in
     payload answer = RecordJson R /\
     rb_title b <> "" /\ rb_recordType b <> "" /\ rb_recordDate b <> "" /\
     rb_patientAddress b <> "" /\
     (sessionRole user = patient ->
      toLowerCase (sessionAddress user) = toLowerCase (rb_patientAddress b)) /\
     fst (getMedicalRecord (MedicalRecord.id R) w') = Some R /\
     In path (files w')) /\
  (forall user path, session = Some user -> file = Stored path ->
     code answer <> 201 ->
     files w' = path :: files w /\ storage w' = storage w) /\
  (forall user, session = Some user -> file = Refused ->
     code answer = 500 /\ w' = w).
Proof.
  intros answer w'. subst answer w'. split; [|split].
  - destruct session as [user|]; [|simpl; discriminate].
    destruct file as [|path|]; [simpl; discriminate| |simpl; discriminate].
    rewrite (postRecords_cases e user path b w). cbv zeta.
    destruct (_ || _)%bool eqn:Missing; [simpl; discriminate|].
    destruct (_ && _)%bool eqn:Foreign; [simpl; discriminate|].
    intros _. exists user, path. split; [reflexivity|]. split; [reflexivity|].
    match goal with |- context [createMedicalRecord e ?r ?x] =>
      destruct (createMedicalRecord_result e r x) as (Hf & Hs & Hfiles) end.
    cbn [fst snd payload]. rewrite Hf.
    apply orb_false_iff in Missing as [Missing M4].
    apply orb_false_iff in Missing as [Missing M3].
    apply orb_false_iff in Missing as [M1 M2].
    apply String.eqb_neq in M1, M2, M3, M4.
    cbn [storage withFiles ir_title ir_recordType ir_recordDate
         ir_patientAddress ir_filePath] in *.
    split; [reflexivity|]. repeat (split; [assumption|]).
    split.
    { intros Hrole. rewrite Hrole in Foreign. simpl in Foreign.
      apply negb_false_iff in Foreign. now apply sameAddress_true. }
    split.
    { unfold getMedicalRecord, gets. cbn [fst]. rewrite Hs.
      cbn [medicalRecords withMedicalRecords MedicalRecord.id].
      apply JSMapFacts.get_set_same. }
    rewrite Hfiles. now left.
  - intros user path -> -> Hcode. revert Hcode.
    rewrite (postRecords_cases e user path b w). cbv zeta.
    destruct (_ || _)%bool; [auto|].
    destruct (_ && _)%bool; [auto|].
    simpl. congruence.
  - intros user -> ->. split; reflexivity.
Qed.

Lemma postRecords_creates_owned_record_witness :
  files (snd (postRecords Example.env Example.aliceSession
                (Stored "uploads/file-9.pdf")
                {| rb_title := "Scan"; rb_recordType := "imaging";
                   rb_recordDate := "2024-03-01";
                   rb_patientAddress := Example.drBob |}
                Example.fresh))
  = ["uploads/file-9.pdf"; "uploads/file-1.pdf"] /\
  snd (postRecords Example.env Example.aliceSession Refused
         {| rb_title := "Scan"; rb_recordType := "imaging";
            rb_recordDate := "2024-03-01";
            rb_patientAddress := Example.alice |}
         Example.fresh)
  = Example.fresh.
Proof.
  split.
  - apply (proj1 (proj2 (postRecords_creates_owned_record Example.env
                           Example.aliceSession (Stored "uploads/file-9.pdf")
                           {| rb_title := "Scan"; rb_recordType := "imaging";
                              rb_recordDate := "2024-03-01";
                              rb_patientAddress := Example.drBob |}
                           Example.fresh))
             {| sessionAddress := Example.alice; sessionRole := patient |}
             "uploads/file-9.pdf" eq_refl eq_refl).
    discriminate.
  - apply (proj2 (proj2 (postRecords_creates_owned_record Example.env
                           Example.aliceSession Refused
                           {| rb_title := "Scan"; rb_recordType := "imaging";
                              rb_recordDate := "2024-03-01";
                              rb_patientAddress := Example.alice |}
                           Example.fresh))
             {| sessionAddress := Example.alice; sessionRole := patient |}
             eq_refl eq_refl).
Defined.

(** * Invariants of a server driven by requests *)

Lemma worldInvariant_wf w : worldInvariant w -> wfWorld w.
Proof.
  intros [(Hwf & _) Hd]. split; [assumption|].
  destruct Hd as [Hd | [Hd | (s0 & (Hwf0 & _) & Hd)]];
    [now left | right; now left|].
  right. right. exists s0. auto.
Qed.

Lemma worldInvariant_after w w' :
  worldInvariant w ->
  storeInvariant (storage w') ->
  dataFile w' = dataFile w \/ dataFile w' = Some Malformed \/
  dataFile w' = Some (Parsed (toDocument (storage w'))) ->
  worldInvariant w'.
Proof.
  intros [_ Hd] Hs [E | [E | E]]; split; try assumption.
  - now rewrite E.
  - right. now left.
  - right. right. exists (storage w'). auto.
Qed.

Lemma written_or_kept e (f f0 : option FileContent) (s : MemStorage) :
  f = fileAfterWrite e f0 s ->
  f = f0 \/ f = Some Malformed \/ f = Some (Parsed (toDocument s)).
Proof.
  unfold fileAfterWrite.
  destruct (writeSucceeds e); [|destruct (writeFailure e)]; auto.
Qed.

Lemma inv_createUser e u w :
  worldInvariant w ->
  fst (getUserByAddress (iu_address u) w) = None ->
  worldInvariant (snd (createUser e u w)).
Proof.
  intros Hinv Hnone. apply (worldInvariant_after w); [assumption| |].
  - pose proof (wfWorld_createUser e u w (worldInvariant_wf _ Hinv)) as [Hwf _].
    destruct Hinv as [(Hwf0 & Huniq & Hrefer) _].
    split; [assumption|]. revert Hwf.
    destruct (createUser_result e u w) as (_ & ->). intros _.
    destruct (wfStorage_next_free _ Hwf0) as (Hfree & _ & _).
    split; [|exact Hrefer].
    unfold uniqueAddresses. cbn [users withUsers].
    rewrite (JSMapFacts.set_fresh _ _ _ Hfree).
    unfold getUserByAddress, gets in Hnone. cbn [fst] in Hnone.
    assert (Old : forall k u0, In (k, u0) (users (storage w)) ->
              toLowerCase (User.address u0) <> toLowerCase (iu_address u)).
    { intros k u0 Hin Heq.
      pose proof (find_none _ _ Hnone u0 (in_map snd _ _ Hin)) as F.
      simpl in F. apply sameAddress_true in Heq. congruence. }
    intros k1 u1 k2 u2 H1 H2 Heq.
    apply in_app_or in H1. apply in_app_or in H2.
    destruct H1 as [H1 | [H1 | []]], H2 as [H2 | [H2 | []]].
    + now apply (Huniq k1 u1 k2 u2).
    + injection H2 as <- <-. simpl in Heq. now apply Old in H1.
    + injection H1 as <- <-. simpl in Heq. symmetry in Heq.
      now apply Old in H2.
    + injection H1 as <- <-. injection H2 as <- <-. reflexivity.
  - eapply written_or_kept. apply createUser_dataFile.
Qed.

Lemma inv_createMedicalRecord e r w :
  worldInvariant w -> worldInvariant (snd (createMedicalRecord e r w)).
Proof.
  intros Hinv. apply (worldInvariant_after w); [assumption| |].
  - pose proof (wfWorld_createMedicalRecord e r w (worldInvariant_wf _ Hinv))
      as [Hwf _].
    destruct Hinv as [(Hwf0 & Huniq & Hrefer) _].
    split; [assumption|]. revert Hwf.
    destruct (createMedicalRecord_result e r w) as (_ & -> & _). intros _.
    destruct (wfStorage_next_free _ Hwf0) as (_ & Hfree & _).
    split; [exact Huniq|].
    unfold grantsRefer. cbn [medicalRecords accessPermissions withMedicalRecords].
    rewrite (JSMapFacts.set_fresh _ _ _ Hfree).
    intros a i Ha Hi. destruct (Hrefer a i Ha Hi) as (r0 & Hget & Hp).
    exists r0. split; [|assumption].
    rewrite (get_app_last _ _ _ _ Hfree).
    destruct (i =? currentRecordId (storage w)) eqn:E; [|assumption].
    apply Z.eqb_eq in E. subst i. congruence.
  - eapply written_or_kept. apply createMedicalRecord_dataFile.
Qed.

Lemma inv_createAccess e a w :
  worldInvariant w ->
  (forall i, In i (ia_recordIds a) ->
     In i (map MedicalRecord.id
             (fst (getMedicalRecordsByPatient (ia_patientAddress a) w)))) ->
  worldInvariant (snd (createAccess e a w)).
Proof.
  intros Hinv Howned. apply (worldInvariant_after w); [assumption| |].
  - pose proof (wfWorld_createAccess e a w (worldInvariant_wf _ Hinv))
      as [Hwf _].
    destruct Hinv as [(Hwf0 & Huniq & Hrefer) _].
    split; [assumption|]. revert Hwf.
    destruct (createAccess_result e a w) as (_ & -> & _). intros _.
    split; [exact Huniq|].
    unfold grantsRefer.
    cbn [medicalRecords accessPermissions withAccessPermissions].
    intros a' i Ha' Hi.
    apply In_values_set_inv in Ha' as [-> | Ha']; [|now apply Hrefer].
    simpl in Hi. apply Howned in Hi.
    apply in_map_iff in Hi as (r0 & Hid & Hin).
    unfold getMedicalRecordsByPatient, gets in Hin. cbn [fst] in Hin.
    apply filter_In in Hin as [Hin Hsame]. exists r0. split.
    + destruct Hwf0 as (_ & Hr & _). rewrite <- Hid.
      eapply stored_under_own_id; eassumption.
    + simpl. now apply sameAddress_true.
  - eapply written_or_kept. apply createAccess_dataFile.
Qed.

Lemma inv_revokeAccess e g w :
  worldInvariant w -> worldInvariant (snd (revokeAccess e g w)).
Proof.
  intros Hinv. apply (worldInvariant_after w); [assumption| |].
  - pose proof (wfWorld_revokeAccess e g w (worldInvariant_wf _ Hinv))
      as [Hwf _].
    destruct Hinv as [(Hwf0 & Huniq & Hrefer) _].
    split; [assumption|]. revert Hwf.
    destruct (revokeAccess_result e g w) as (_ & -> & _). intros _.
    split; [exact Huniq|].
    unfold grantsRefer.
    cbn [medicalRecords accessPermissions withAccessPermissions].
    intros a i Ha Hi. apply (Hrefer a i); [|assumption].
    unfold JSMap.values in *. apply in_map_iff in Ha as ([k a0] & <- & Ha).
    apply JSMapFacts.In_delete in Ha as [Ha _].
    now apply (in_map snd _ (k, a0)).
  - pose proof (revokeAccess_dataFile e g w) as D.
    destruct (fst (revokeAccess e g w)); [|now left].
    eapply written_or_kept. exact D.
Qed.

Lemma inv_deleteMedicalRecord e id w :
  worldInvariant w -> worldInvariant (snd (deleteMedicalRecord e id w)).
Proof.
  intros Hinv.
  destruct (JSMap.get id (medicalRecords (storage w))) as [R|] eqn:G;
    [|now rewrite (deleteMedicalRecord_unknown e id w G)].
  apply (worldInvariant_after w); [assumption| |].
  - pose proof (wfWorld_deleteMedicalRecord e id w (worldInvariant_wf _ Hinv))
      as [Hwf _].
    destruct Hinv as [(Hwf0 & Huniq & Hrefer) _].
    split; [assumption|]. revert Hwf.
    destruct (deleteMedicalRecord_found e id R w G) as [_ ->]. intros _.
    split; [exact Huniq|].
    unfold grantsRefer.
    cbn [medicalRecords accessPermissions withMedicalRecords
         withAccessPermissions].
    destruct Hwf0 as (_ & _ & Hwa).
    rewrite dropRecordFromAll_flat_map by (eapply wellKeyed_NoDup; eauto).
    intros a' i Ha' Hi. unfold JSMap.values in Ha'.
    apply in_map_iff in Ha' as ([k a1] & <- & Ha').
    pose proof (In_shrunk _ _ _ _ Ha') as Hnot.
    apply in_flat_map in Ha' as ([k0 a0] & Hin0 & Hs).
    assert (Hfrom : In i (Access.recordIds a0) /\
                    Access.patientAddress a1 = Access.patientAddress a0).
    { unfold shrunk in Hs. destruct (includes id (Access.recordIds a0)).
      - cbv zeta in Hs. destruct (Z.of_nat _ =? 0); simpl in Hs; [tauto|].
        destruct Hs as [Hs|[]]. injection Hs as <- <-. simpl in Hi.
        apply filter_In in Hi. simpl. tauto.
      - destruct Hs as [Hs|[]]. injection Hs as <- <-. auto. }
    destruct Hfrom as [Hi0 Hp]. simpl in *.
    destruct (Hrefer a0 i (in_map snd _ _ Hin0) Hi0) as (r0 & Hget & Hpr).
    exists r0. split; [|now rewrite Hp].
    rewrite JSMapFacts.get_delete_other; [assumption|].
    intros ->. contradiction.
  - pose proof (deleteMedicalRecord_dataFile e id w) as D.
    destruct (fst (deleteMedicalRecord e id w)); [|now left].
    eapply written_or_kept. exact D.
Qed.

Lemma inv_withFiles w fs : worldInvariant w -> worldInvariant (withFiles w fs).
Proof. intros [Hs Hd]. split; assumption. Qed.

Lemma inv_empty : storeInvariant emptyStorage.
Proof.
  split; [apply wfStorage_empty|]. split.
  - intros k1 u1 k2 u2 [].
  - intros a i [].
Qed.

Lemma inv_constructor w : worldInvariant w -> worldInvariant (snd (constructor w)).
Proof.
  intros [Hs Hd]. unfold constructor, loadData, bind, modifyStorage. simpl.
  destruct Hd as [Hd | [Hd | (s0 & ((Hu & Hr & Ha) & Huniq & Hrefer) & Hd)]];
    rewrite Hd; simpl.
  - split; [apply inv_empty | now left].
  - split; [apply inv_empty | right; now left].
  - split; [|right; right; exists s0; repeat split; assumption].
    unfold loadAccessPermissions, loadMedicalRecords, loadUsers. simpl.
    destruct (wellKeyed_reload _ _ _ Hu) as [-> Hu'].
    destruct (wellKeyed_reload _ _ _ Hr) as [-> Hr'].
    destruct (wellKeyed_reload _ _ _ Ha) as [-> Ha'].
    repeat split; assumption.
Qed.

Lemma postAccess_world_owned e session b w :
  snd (postAccess e session b w) = w \/
  exists a,
    (forall i, In i (ia_recordIds a) ->
       In i (map MedicalRecord.id
               (fst (getMedicalRecordsByPatient (ia_patientAddress a) w)))) /\
    snd (postAccess e session b w) = snd (createAccess e a w).
Proof.
  unfold postAccess, authenticate. destruct session as [user|]; [|now left].
  destruct (sessionRole user); [|now left].
  destruct (negb _); [now left|].
  unfold insertAccessSchema.
  destruct (parseDuration _) as [d|]; [|now left].
  unfold bind, getMedicalRecordsByPatient, gets, respond, ret. cbn [fst snd].
  destruct (0 <? _) eqn:E; [now left|]. right.
  exists {| ia_patientAddress := ab_patientAddress b;
            ia_doctorAddress := ab_doctorAddress b;
            ia_recordIds := ab_recordIds b; ia_duration := d |}.
  split.
  - exact (proj1 (no_invalid_records _ _) E).
  - now destruct (createAccess e _ w).
Qed.

Lemma inv_request w w' : worldInvariant w -> request w w' -> worldInvariant w'.
Proof.
  intros H S. destruct S.
  - pose proof (postUsers_cases e b w) as C.
    destruct (insertUserSchema b) as [u|]; [|now rewrite C].
    destruct (fst (getUserByAddress (iu_address u) w)) eqn:F; rewrite C;
      [assumption | now apply inv_createUser].
  - destruct session as [user|]; [|assumption].
    destruct file as [|path|]; [assumption| |assumption].
    rewrite (postRecords_cases e user path b w). cbv zeta.
    destruct (_ || _)%bool; [now apply inv_withFiles|].
    destruct (_ && _)%bool; [now apply inv_withFiles|].
    apply inv_createMedicalRecord. now apply inv_withFiles.
  - destruct (deleteRecord_world e session id w) as [-> | [i ->]];
      [assumption | now apply inv_deleteMedicalRecord].
  - destruct (postAccess_world_owned e session b w) as [-> | (a & Ho & ->)];
      [assumption | now apply inv_createAccess].
  - destruct (deleteAccess_world e session id w) as [-> | [i ->]];
      [assumption | now apply inv_revokeAccess].
  - now apply inv_constructor.
Qed.

Lemma served_invariant w : served w -> worldInvariant w.
Proof.
  induction 1 as [fs | w w' _ IH S].
  - apply inv_constructor. split; [apply inv_empty | now left].
  - eapply inv_request; eassumption.
Qed.

(** X14.  In every state of a server driven by requests (registrations,
    uploads, grants, revocations, deletions and restarts, in any order,
    with any failures of the disk), no two stored users have the same
    address up to letter case. *)
Theorem served_addresses_unique (w : World) :
  served w ->
  forall u1 u2,
    In u1 (JSMap.values (users (storage w))) ->
    In u2 (JSMap.values (users (storage w))) ->
    toLowerCase (User.address u1) = toLowerCase (User.address u2) ->
    u1 = u2.
Proof.
  intros S u1 u2 H1 H2 Heq.
  destruct (served_invariant w S) as [((Hu & _) & Huniq & _) _].
  unfold JSMap.values in H1, H2.
  apply in_map_iff in H1 as ([k1 v1] & <- & H1).
  apply in_map_iff in H2 as ([k2 v2] & <- & H2). simpl in *.
  pose proof (Huniq k1 v1 k2 v2 H1 H2 Heq) as ->.
  pose proof (wellKeyed_NoDup _ _ _ Hu) as Hnd.
  apply (JSMapFacts.In_get _ _ _ Hnd) in H1.
  apply (JSMapFacts.In_get _ _ _ Hnd) in H2. congruence.
Qed.

Lemma served_addresses_unique_witness :
  let w1 := snd (postUsers Example.env
                   {| ub_address := Example.alice;
                      ub_role := roleName patient |} Example.fresh) in
  let w2 := snd (postUsers Example.env
                   {| ub_address := Example.drBob;
                      ub_role := roleName doctor |} w1) in
  let again := postUsers Example.env
                 {| ub_address := Example.aliceLower;
                    ub_role := roleName doctor |} w2 in
  status (fst again) = 409 /\
  map User.address (JSMap.values (users (storage (snd again))))
  = [Example.alice; Example.drBob] /\
  fst (getUserByAddress Example.aliceLower (snd again))
  = fst (getUser 1 (snd again)).
Proof.
  cbv zeta. split; [reflexivity|]. split; [reflexivity|].
  apply (f_equal Some).
  apply (served_addresses_unique
           (snd (postUsers Example.env
                   {| ub_address := Example.aliceLower;
                      ub_role := roleName doctor |}
                   (snd (postUsers Example.env
                           {| ub_address := Example.drBob;
                              ub_role := roleName doctor |}
                           (snd (postUsers Example.env
                                   {| ub_address := Example.alice;
                                      ub_role := roleName patient |}
                                   Example.fresh))))))).
  - eapply served_request; [|apply request_postUsers].
    eapply served_request; [|apply request_postUsers].
    eapply served_request; [apply served_start | apply request_postUsers].
  - left. reflexivity.
  - left. reflexivity.
  - reflexivity.
Defined.

(** X15.  In every state of a server driven by requests, every record id
    held by a stored grant is the id of a stored record whose patient is the
    grant's patient, letter case aside: grants never dangle and never point
    at another patient's record, also after deletions and restarts.  So
    whenever the access test passes for a doctor, a patient and an id, a
    record is stored under that id and belongs to that patient. *)
Theorem served_grants_refer (w : World) :
  served w ->
  grantsRefer (storage w) /\
  (forall D P i, fst (hasAccess D P i w) = true ->
     exists r, fst (getMedicalRecord i w) = Some r /\
               MedicalRecord.id r = i /\
               toLowerCase (MedicalRecord.patientAddress r) = toLowerCase P).
Proof.
  intros S.
  destruct (served_invariant w S) as [((_ & Hr & _) & _ & Hrefer) _].
  split; [exact Hrefer|]. intros D P i H.
  apply hasAccess_true_iff in H as (a & Ha & _ & Hp & Hi).
  destruct (Hrefer a i Ha Hi) as (r & Hget & Hpr).
  exists r. split; [exact Hget|]. split; [|congruence].
  apply JSMapFacts.get_In in Hget.
  eapply wellKeyed_In; eassumption.
Qed.

Lemma served_grants_refer_witness :
  grantsRefer
    (storage
       (snd (postAccess Example.env Example.aliceSession Example.grantLabA
               (snd (postRecords Example.env Example.aliceSession
                       (Stored "uploads/file-1.pdf")
                       {| rb_title := "Lab A"; rb_recordType := "lab-result";
                          rb_recordDate := "2024-01-01";
                          rb_patientAddress := Example.alice |}
                       Example.fresh))))).
Proof.
  apply served_grants_refer.
  eapply served_request; [|apply request_postAccess].
  eapply served_request; [apply served_start | apply request_postRecords].
Defined.

(** * Properties of the client code *)

Lemma string_append_assoc (a b c : string) :
  String.append (String.append a b) c = String.append a (String.append b c).
Proof. induction a as [|x a IH]; simpl; [reflexivity | now rewrite IH]. Qed.

Lemma charAt_hex (d : Z) :
  0 <= d < 16 ->
  exists c, charAt "0123456789abcdef" d = String c EmptyString /\
            isLowerHexDigit c = true.
Proof.
  intros H.
  assert (C : d = 0 \/ d = 1 \/ d = 2 \/ d = 3 \/ d = 4 \/ d = 5 \/ d = 6 \/
              d = 7 \/ d = 8 \/ d = 9 \/ d = 10 \/ d = 11 \/ d = 12 \/
              d = 13 \/ d = 14 \/ d = 15) by lia.
  repeat (destruct C as [-> | C]; [eexists; split; reflexivity|]).
  subst d. eexists; split; reflexivity.
Qed.

Lemma appendDraws_hex (draw : nat -> Z) (n : nat) :
  (forall i, 0 <= draw i < 16) ->
  forall from acc,
  exists t, appendDraws "0123456789abcdef" draw n from acc = String.append acc t /\
            String.length t = n /\ allChars isLowerHexDigit t = true.
Proof.
  intros Hdraw. induction n as [|n IH]; intros from acc.
  - exists EmptyString. simpl. split; [|auto].
    clear. induction acc as [|x acc IH]; simpl; [reflexivity | now rewrite <- IH].
  - cbn [appendDraws].
    destruct (charAt_hex (draw from) (Hdraw from)) as (c & -> & Hc).
    destruct (IH (S from) (String.append acc (String c EmptyString)))
      as (t & -> & Hlen & Hall).
    exists (String c t). rewrite string_append_assoc. simpl.
    rewrite Hlen, Hc, Hall. auto.
Qed.

Lemma lowerHex_isHex c : isLowerHexDigit c = true -> isHexDigit c = true.
Proof.
  unfold isLowerHexDigit, isHexDigit.
  destruct (inRange 48 57 c), (inRange 97 102 c), (inRange 65 70 c);
    simpl; congruence.
Qed.

Lemma lowerHex_lowerChar c : isLowerHexDigit c = true -> lowerChar c = c.
Proof.
  unfold isLowerHexDigit, inRange, lowerChar. cbv zeta. intros Hhex.
  destruct (Nat.leb_spec 65 (nat_of_ascii c)),
           (Nat.leb_spec (nat_of_ascii c) 90); simpl; try reflexivity.
  exfalso. revert Hhex.
  destruct (Nat.leb_spec 48 (nat_of_ascii c)),
           (Nat.leb_spec (nat_of_ascii c) 57),
           (Nat.leb_spec 97 (nat_of_ascii c)),
           (Nat.leb_spec (nat_of_ascii c) 102); simpl; intros Hhex;
    try discriminate; lia.
Qed.

Lemma allChars_impl (p q : ascii -> bool) s :
  (forall c, p c = true -> q c = true) ->
  allChars p s = true -> allChars q s = true.
Proof.
  intros H. induction s as [|c s IH]; simpl; [reflexivity|].
  rewrite !andb_true_iff. intros [Hc Hs]. auto.
Qed.

Lemma allChars_lower s :
  allChars isLowerHexDigit s = true -> toLowerCase s = s.
Proof.
  induction s as [|c s IH]; simpl; [reflexivity|].
  rewrite andb_true_iff. intros [Hc Hs].
  now rewrite (lowerHex_lowerChar c Hc), IH.
Qed.

(** X16.  The generated identifiers are well formed.  With every draw
    (the floor of a random number in [0, 1) times 16) between 0 and 15:
    a generated transaction hash is [0x] followed by exactly 64 characters,
    a generated address is [0x] followed by exactly 40, all of them among
    [0-9a-f]; the address passes the address test of the grant form and is
    its own lower-case form. *)
Theorem generated_identifiers_well_formed (draw : nat -> Z) :
  (forall i, 0 <= draw i < 16) ->
  (exists t, generateTransactionHash draw = String "0" (String "x" t) /\
             String.length t = 64%nat /\ allChars isLowerHexDigit t = true) /\
  (exists t, generateBlockchainAddress draw = String "0" (String "x" t) /\
             String.length t = 40%nat /\ allChars isLowerHexDigit t = true) /\
  isEthereumAddress (generateBlockchainAddress draw) = true /\
  toLowerCase (generateBlockchainAddress draw) = generateBlockchainAddress draw.
Proof.
  intros Hdraw.
  destruct (appendDraws_hex draw 64 Hdraw 0%nat "0x") as (t64 & E64 & L64 & A64).
  destruct (appendDraws_hex draw 40 Hdraw 0%nat "0x") as (t40 & E40 & L40 & A40).
  unfold generateTransactionHash, generateBlockchainAddress.
  rewrite E64, E40. simpl.
  split; [exists t64; auto|]. split; [exists t40; auto|]. split.
  - rewrite L40. simpl. eapply allChars_impl; [apply lowerHex_isHex | exact A40].
  - now rewrite (allChars_lower t40 A40).
Qed.

Lemma generated_identifiers_well_formed_witness :
  isEthereumAddress
    (generateBlockchainAddress (fun i => Z.of_nat (Nat.modulo (7 * i) 16)))
  = true.
Proof.
  apply (generated_identifiers_well_formed
           (fun i => Z.of_nat (Nat.modulo (7 * i) 16))).
  intros i. pose proof (Nat.mod_upper_bound (7 * i) 16). lia.
Defined.

Lemma simulateTicks_completes (draws : list Z) :
  forall progress,
    0 <= progress < 100 ->
    Forall (fun d => 0 <= d <= 9) draws ->
    100 - progress <= 5 * Z.of_nat (List.length draws) ->
    let reported := fst (simulateTicks progress draws) in
    snd (simulateTicks progress draws) = true /\
    last reported 0 = 100 /\
    ascending progress reported 101 = true /\
    100 - progress <= 14 * Z.of_nat (List.length reported) /\
    5 * Z.of_nat (List.length reported) < 105 - progress.
Proof.
  induction draws as [|d draws IH]; intros progress Hp Hd Hlen.
  - exfalso. cbn [List.length] in Hlen. lia.
  - inversion Hd as [|? ? Hd0 Hd']; subst. cbn [simulateTicks].
    destruct (100 <=? progress + (d + 5)) eqn:E.
    + cbv zeta. cbn [fst snd last List.length ascending].
      apply Z.leb_le in E. rewrite andb_true_iff, !Z.ltb_lt.
      repeat split; lia.
    + apply Z.leb_gt in E.
      assert (Hlen' : 100 - (progress + (d + 5))
                      <= 5 * Z.of_nat (List.length draws)).
      { cbn [List.length] in Hlen. lia. }
      specialize (IH (progress + (d + 5)) ltac:(lia) Hd' Hlen').
      destruct (simulateTicks (progress + (d + 5)) draws) as [rep done].
      cbn [fst snd] in *. destruct IH as (I1 & I2 & I3 & I4 & I5).
      split; [assumption|]. split.
      { destruct rep as [|x rep]; [simpl in I2; lia | exact I2]. }
      split.
      { cbn [ascending]. rewrite I3, andb_true_r. apply Z.ltb_lt. lia. }
      cbn [List.length]. lia.
Qed.

(** X17.  The simulated transaction always completes.  With every draw
    (the floor of a random number in [0, 1) times 10) between 0 and 9 and
    the timer left running for 20 ticks or more: the completion callback is
    scheduled, the progress values reported are strictly increasing, lie
    above 0 and end with exactly 100, and there are at least 8 and at most
    20 of them. *)
Theorem simulateBlockchainTransaction_completes (draws : list Z) :
  Forall (fun d => 0 <= d <= 9) draws ->
  (20 <= List.length draws)%nat ->
  let reported := fst (simulateBlockchainTransaction draws) in
  snd (simulateBlockchainTransaction draws) = true /\
  last reported 0 = 100 /\
  ascending 0 reported 101 = true /\
  (8 <= List.length reported <= 20)%nat.
Proof.
  intros Hd Hlen. unfold simulateBlockchainTransaction.
  destruct (simulateTicks_completes draws 0 ltac:(lia) Hd ltac:(lia))
    as (H1 & H2 & H3 & H4 & H5).
  cbv zeta. repeat split; try assumption; lia.
Qed.

Lemma simulateBlockchainTransaction_completes_witness :
  snd (simulateBlockchainTransaction
         [0; 9; 3; 7; 1; 8; 2; 6; 4; 5; 0; 9; 3; 7; 1; 8; 2; 6; 4; 5]) = true.
Proof.
  apply (simulateBlockchainTransaction_completes
           [0; 9; 3; 7; 1; 8; 2; 6; 4; 5; 0; 9; 3; 7; 1; 8; 2; 6; 4; 5]).
  - repeat constructor; lia.
  - simpl. lia.
Defined.

(** X18.  What the doctor's page shows.  From the answer of the server
    for doctor [D], the page makes one group per grant, in order.  A record
    is shown in the group of a grant exactly when it is stored, its patient
    address is the grant's patient address character for character, and
    the grant holds its id.  Every record shown is one the server lets [D]
    view: the access test passes for it. *)
Theorem groupRecords_shows_accessible (D : string) (w : World) :
  let answer := fst (getAccessibleRecordsByDoctor D w) in
  let groups := groupRecords (fst answer) (snd answer) in
  map group_accessDetails groups = fst (getAccessByDoctor D w) /\
  (forall g r, In g groups ->
     (In r (group_records g) <->
      In r (JSMap.values (medicalRecords (storage w))) /\
      MedicalRecord.patientAddress r
      = Access.patientAddress (group_accessDetails g) /\
      In (MedicalRecord.id r) (Access.recordIds (group_accessDetails g)))) /\
  (forall g r, In g groups -> In r (group_records g) ->
     fst (hasAccess D (MedicalRecord.patientAddress r) (MedicalRecord.id r) w)
     = true).
Proof.
  intros answer groups. subst groups answer.
  rewrite getAccessibleRecordsByDoctor_value. cbn [fst snd].
  set (accessList := fst (getAccessByDoctor D w)).
  assert (Shown : forall g r, In g (groupRecords accessList
              (flat_map (fun p => fst (getMedicalRecordsByPatient p w))
                 (distinct [] (map Access.patientAddress accessList)))) ->
     In (group_accessDetails g) accessList /\
     (In r (group_records g) <->
      In r (JSMap.values (medicalRecords (storage w))) /\
      MedicalRecord.patientAddress r
      = Access.patientAddress (group_accessDetails g) /\
      In (MedicalRecord.id r) (Access.recordIds (group_accessDetails g)))).
  { intros g r Hg. unfold groupRecords in Hg.
    apply in_map_iff in Hg as (a & <- & Ha). cbn [group_accessDetails
      group_records]. split; [assumption|].
    rewrite filter_In, andb_true_iff, String.eqb_eq, includes_In, in_flat_map.
    split.
    - intros [(p & _ & Hr) [Hp Hi]].
      unfold getMedicalRecordsByPatient, gets in Hr. cbn [fst] in Hr.
      apply filter_In in Hr as [Hr _]. auto.
    - intros (Hr & Hp & Hi). split; [|auto].
      exists (Access.patientAddress a). split.
      + apply In_distinct. split; [now apply in_map | tauto].
      + unfold getMedicalRecordsByPatient, gets. cbn [fst].
        apply filter_In. split; [assumption|].
        apply sameAddress_true. now rewrite Hp. }
  split.
  { unfold groupRecords. rewrite map_map. apply map_id. }
  split.
  { intros g r Hg. apply (Shown g r Hg). }
  intros g r Hg Hr. destruct (Shown g r Hg) as [Ha Hiff].
  apply Hiff in Hr as (_ & Hp & Hi).
  apply hasAccess_true_iff. exists (group_accessDetails g).
  subst accessList. unfold getAccessByDoctor, gets in Ha. cbn [fst] in Ha.
  apply filter_In in Ha as [Ha Hd]. apply sameAddress_true in Hd.
  split; [assumption|]. repeat split; [assumption | now rewrite Hp | assumption].
Qed.

Lemma groupRecords_shows_accessible_witness :
  map (fun g => map MedicalRecord.id (group_records g))
    (groupRecords
       (fst (fst (getAccessibleRecordsByDoctor Example.drBob
                    Example.sharedBoth)))
       (snd (fst (getAccessibleRecordsByDoctor Example.drBob
                    Example.sharedBoth))))
  = [[1; 1]; []] /\
  fst (hasAccess Example.drBob Example.alice 1 Example.sharedBoth) = true.
Proof.
  split; [reflexivity|].
  apply (proj2 (proj2 (groupRecords_shows_accessible Example.drBob
                         Example.sharedBoth))
           {| group_patientAddress := Example.alice;
              group_accessDetails :=
                Access.mk 1 Example.alice Example.drBob [1] sevenDays
                  (now Example.env);
              group_records := [Example.labARecord; Example.labARecord] |}
           Example.labARecord).
  - left. reflexivity.
  - left. reflexivity.
Defined.

(** X19.  A grant request that passes the validation of the grant form
    (a well-formed doctor address, at least one record id, a non-empty
    duration) never brings an empty grant into the store: whoever sends it
    and whatever the answer, a store without empty grants stays without.
    When the answer is 201, the stored grant holds the ids of the form and
    names a doctor address of the form [0x] and 40 hexadecimal digits. *)
Theorem validated_grant_is_not_empty (e : Env) (session : Session)
  (userAddress doctorAddress : string) (recordIds : list Z)
  (accessDuration : string) (w : World) :
  grantAccessSchema doctorAddress recordIds accessDuration = true ->
  let b := grantRequest userAddress doctorAddress recordIds accessDuration in
  (noEmptyGrant (storage w) ->
   noEmptyGrant (storage (snd (postAccess e session b w)))) /\
  (forall a, fst (postAccess e session b w)
             = {| status := 201; body := AccessJson a |} ->
     Access.recordIds a = recordIds /\ recordIds <> [] /\
     isEthereumAddress (Access.doctorAddress a) = true /\
     fst (getAccess (Access.id a) (snd (postAccess e session b w))) = Some a).
Proof.
  intros Hschema b. unfold grantAccessSchema in Hschema.
  rewrite !andb_true_iff in Hschema. destruct Hschema as [[[_ Haddr] Hids] _].
  assert (Hne : recordIds <> []).
  { destruct recordIds; [discriminate | congruence]. }
  split.
  - intros Hinv.
    destruct (postAccess_world e session b w) as [-> | (a & Ha & ->)];
      [assumption|].
    apply noEmptyGrant_createAccess; [|assumption].
    revert Ha. unfold insertAccessSchema.
    destruct (parseDuration _); [|discriminate]. now intros [= <-].
  - intros a Hanswer.
    assert (H201 : status (fst (postAccess e session b w)) = 201)
      by now rewrite Hanswer.
    revert Hanswer. unfold postAccess, authenticate, respond, ret in *.
    destruct session as [user|]; [|discriminate].
    destruct (sessionRole user); [|discriminate].
    destruct (negb _); [discriminate|].
    unfold insertAccessSchema in *.
    destruct (parseDuration _) as [d|]; [|discriminate].
    unfold bind, getMedicalRecordsByPatient, gets in *. cbn [fst snd] in *.
    destruct (0 <? _); [discriminate|].
    match goal with |- context [createAccess e ?x w] =>
      destruct (createAccess_result e x w) as (Hf & Hs & _);
      destruct (createAccess e x w) as [acc w'] end.
    cbn [fst snd] in *. intros [= <-]. subst acc.
    cbn [Access.recordIds Access.doctorAddress Access.id ia_recordIds
         ia_doctorAddress ab_recordIds ab_doctorAddress b grantRequest].
    repeat split; try assumption.
    unfold getAccess, gets. cbn [fst]. rewrite Hs.
    cbn [accessPermissions withAccessPermissions].
    apply JSMapFacts.get_set_same.
Qed.

Lemma validated_grant_is_not_empty_witness :
  noEmptyGrant
    (storage (snd (postAccess Example.env Example.aliceSession
                     (grantRequest Example.alice Example.drBob [1] "7-days")
                     Example.uploaded))).
Proof.
  apply (proj1 (validated_grant_is_not_empty Example.env Example.aliceSession
                  Example.alice Example.drBob [1] "7-days" Example.uploaded
                  eq_refl)).
  intros a [].
Defined.

(** * Restarts *)

Lemma constructor_restores w s0 :
  wfStorage s0 ->
  dataFile w = Some (Parsed (toDocument s0)) ->
  let s := storage (snd (constructor w)) in
  users s = users s0 /\ medicalRecords s = medicalRecords s0 /\
  accessPermissions s = accessPermissions s0 /\
  currentUserId s = maxKey (users s0) + 1 /\
  currentRecordId s = maxKey (medicalRecords s0) + 1 /\
  currentAccessId s = maxKey (accessPermissions s0) + 1.
Proof.
  intros (Hu & Hr & Ha) Hd.
  unfold constructor, loadData, bind, modifyStorage. simpl. rewrite Hd. simpl.
  unfold loadAccessPermissions, loadMedicalRecords, loadUsers. simpl.
  destruct (wellKeyed_reload _ _ _ Hu) as [-> _].
  destruct (wellKeyed_reload _ _ _ Hr) as [-> _].
  destruct (wellKeyed_reload _ _ _ Ha) as [-> _].
  repeat split.
Qed.

(** X20.  Restarting after a write that failed.  Start from a well-formed
    store that has just been written, and create a grant while the write to
    the data file fails.  The grant is in memory and can be fetched.  What a
    restart then gives depends on how the write failed: if the file could
    not be opened, the data file is the one written before and the restart
    gives back the users, records and grants from before the creation,
    without the new grant; if the write stopped part-way, the data file does
    not parse and the restart gives the empty stores, everything written
    before lost with it; if only the close failed, the restart gives back
    the grants with the new one. *)
Theorem restart_after_failed_write (e e' : Env) (a : InsertAccess)
  (w : World) :
  wfStorage (storage w) ->
  writeSucceeds e = true ->
  writeSucceeds e' = false ->
  let w1 := snd (saveData e w) in
  let w2 := snd (createAccess e' a w1) in
  let g := currentAccessId (storage w) in
  let restarted := storage (snd (constructor w2)) in
  fst (getAccess g w2) = Some (fst (createAccess e' a w1)) /\
  match writeFailure e' with
  | BeforeOpen =>
      dataFile w2 = dataFile w1 /\
      users restarted = users (storage w) /\
      medicalRecords restarted = medicalRecords (storage w) /\
      accessPermissions restarted = accessPermissions (storage w) /\
      JSMap.get g (accessPermissions restarted) = None
  | DuringWrite =>
      dataFile w2 = Some Malformed /\ restarted = emptyStorage
  | AtClose =>
      accessPermissions restarted = accessPermissions (storage w2) /\
      JSMap.get g (accessPermissions restarted)
      = Some (fst (createAccess e' a w1))
  end.
Proof.
  intros Hwf He He' w1 w2 g restarted. subst w1 w2 g restarted.
  assert (Hs1 : storage (snd (saveData e w)) = storage w)
    by apply saveData_storage.
  assert (Hd1 : dataFile (snd (saveData e w))
                = Some (Parsed (toDocument (storage w)))).
  { rewrite saveData_dataFile. unfold fileAfterWrite. now rewrite He. }
  destruct (wfStorage_next_free _ Hwf) as (_ & _ & Hfree).
  assert (Hmem : JSMap.get (currentAccessId (storage w))
                   (accessPermissions
                      (storage (snd (createAccess e' a (snd (saveData e w))))))
                 = Some (fst (createAccess e' a (snd (saveData e w))))).
  { destruct (createAccess_result e' a (snd (saveData e w))) as (-> & -> & _).
    rewrite Hs1. cbn [accessPermissions withAccessPermissions].
    apply JSMapFacts.get_set_same. }
  split; [exact Hmem|].
  pose proof (createAccess_dataFile e' a (snd (saveData e w))) as Hd2.
  unfold fileAfterWrite in Hd2. rewrite He' in Hd2.
  destruct (writeFailure e').
  - rewrite Hd1 in Hd2.
    destruct (constructor_restores _ _ Hwf Hd2) as (Hu & Hr & Hgr & _).
    split; [now rewrite Hd2, Hd1|]. repeat (split; [assumption|]).
    now rewrite Hgr.
  - split; [exact Hd2|].
    unfold constructor, loadData, bind, modifyStorage. simpl.
    now rewrite Hd2.
  - assert (Hwf2 : wfStorage
                     (storage (snd (createAccess e' a (snd (saveData e w)))))).
    { apply wfWorld_createAccess. split; [now rewrite Hs1|].
      right. right. exists (storage w). auto. }
    destruct (constructor_restores _ _ Hwf2 Hd2) as (_ & _ & Hgr & _).
    split; [exact Hgr|]. now rewrite Hgr.
Qed.

Lemma restart_after_failed_write_witness :
  storage (snd (constructor
     (snd (createAccess
             {| now := 5; sha256Hex := ""; generatedTransactionHash := "";
                writeSucceeds := false; writeFailure := DuringWrite;
                unlinkSucceeds := true |}
             {| ia_patientAddress := Example.alice;
                ia_doctorAddress := Example.drBob;
                ia_recordIds := [2]; ia_duration := permanent |}
             (snd (saveData Example.env Example.granted))))))
  = emptyStorage /\
  accessPermissions
    (storage (snd (constructor
       (snd (createAccess
               {| now := 5; sha256Hex := ""; generatedTransactionHash := "";
                  writeSucceeds := false; writeFailure := BeforeOpen;
                  unlinkSucceeds := true |}
               {| ia_patientAddress := Example.alice;
                  ia_doctorAddress := Example.drBob;
                  ia_recordIds := [2]; ia_duration := permanent |}
               (snd (saveData Example.env Example.granted)))))))
  = accessPermissions (storage Example.granted).
Proof.
  split.
  - apply (restart_after_failed_write Example.env
             {| now := 5; sha256Hex := ""; generatedTransactionHash := "";
                writeSucceeds := false; writeFailure := DuringWrite;
                unlinkSucceeds := true |}
             {| ia_patientAddress := Example.alice;
                ia_doctorAddress := Example.drBob;
                ia_recordIds := [2]; ia_duration := permanent |}
             Example.granted); [repeat split | reflexivity | reflexivity].
  - apply (restart_after_failed_write Example.env
             {| now := 5; sha256Hex := ""; generatedTransactionHash := "";
                writeSucceeds := false; writeFailure := BeforeOpen;
                unlinkSucceeds := true |}
             {| ia_patientAddress := Example.alice;
                ia_doctorAddress := Example.drBob;
                ia_recordIds := [2]; ia_duration := permanent |}
             Example.granted); [repeat split | reflexivity | reflexivity].
Defined.

Lemma maxKey_le {V} (m : JSMap.t V) b :
  0 <= b -> (forall k, In k (JSMap.keys m) -> k <= b) -> maxKey m <= b.
Proof.
  intros Hb. unfold maxKey.
  induction (JSMap.keys m) as [|k ks IH]; simpl; intros H; [assumption|].
  apply Z.max_lub; [apply H; now left | apply IH; auto].
Qed.

(** X21.  Ids are handed out again after a restart.  In a well-formed
    store let [k] be the largest record id in use.  After deleting that
    record (the write succeeding), a record created in the same process gets
    an id above [k]; a record created after a restart gets an id that is at
    most [k], so the id of the deleted record can come back for another
    record. *)
Theorem deleted_id_comes_back_after_restart (e : Env) (k : Z)
  (R : MedicalRecord.t) (r : InsertMedicalRecord) (w : World) :
  wfStorage (storage w) ->
  writeSucceeds e = true ->
  JSMap.get k (medicalRecords (storage w)) = Some R ->
  (forall k', In k' (JSMap.keys (medicalRecords (storage w))) -> k' <= k) ->
  let w1 := snd (deleteMedicalRecord e k w) in
  k < MedicalRecord.id (fst (createMedicalRecord e r w1)) /\
  MedicalRecord.id (fst (createMedicalRecord e r (snd (constructor w1)))) <= k.
Proof.
  intros Hwf He Hget Hmax w1. subst w1.
  destruct (deleteMedicalRecord_found e k R w Hget) as [Hok Hs].
  pose proof (deleteMedicalRecord_dataFile e k w) as Hd.
  rewrite Hok in Hd. unfold fileAfterWrite in Hd. rewrite He in Hd.
  assert (Hwf1 : wfStorage (storage (snd (deleteMedicalRecord e k w)))).
  { rewrite Hs. destruct Hwf as (Hu & Hr & Ha). repeat split; simpl.
    - assumption.
    - now apply wellKeyed_delete.
    - now apply wellKeyed_dropRecordFromAll. }
  assert (Hk : 0 < k < currentRecordId (storage w)).
  { destruct Hwf as (_ & Hr & _). unfold wellKeyed in Hr.
    apply andb_true_iff in Hr as [Hr _].
    apply (ascending_bounds _ _ _ Hr).
    apply JSMapFacts.get_In in Hget. now apply (in_map fst _ (k, R)). }
  split.
  - destruct (createMedicalRecord_result e r (snd (deleteMedicalRecord e k w)))
      as (-> & _). simpl. rewrite Hs. simpl. lia.
  - destruct (constructor_restores _ _ Hwf1 Hd) as (_ & _ & _ & _ & Hc & _).
    destruct (createMedicalRecord_result e r
                (snd (constructor (snd (deleteMedicalRecord e k w)))))
      as (-> & _).
    cbn [MedicalRecord.id]. rewrite Hc, Hs.
    cbn [medicalRecords withMedicalRecords].
    assert (maxKey (JSMap.delete k (medicalRecords (storage w))) <= k - 1);
      [|lia].
    apply maxKey_le; [lia|]. intros k' Hin. rewrite keys_delete in Hin.
    apply filter_In in Hin as [Hin Hne].
    apply negb_true_iff, Z.eqb_neq in Hne. specialize (Hmax k' Hin). lia.
Qed.

Lemma deleted_id_comes_back_after_restart_witness :
  MedicalRecord.id
    (fst (createMedicalRecord Example.env Example.labA
            (snd (constructor
                    (snd (deleteMedicalRecord Example.env 2 Example.uploaded))))))
  <= 2.
Proof.
  apply (deleted_id_comes_back_after_restart Example.env 2
           (MedicalRecord.mk 2 "X-ray" "imaging" "2024-02-01" Example.alice
              "uploads/file-2.png" (sha256Hex Example.env)
              (generatedTransactionHash Example.env) (now Example.env))
           Example.labA Example.uploaded).
  - repeat split.
  - reflexivity.
  - reflexivity.
  - simpl. intros k' [<- | [<- | []]]; lia.
Defined.
